(** * Regex with Email Address: the comparison notebook, embedded

    The notebook [RAPIDS_regex/RAPIDS-regex-email-addresses.ipynb] builds a
    list of email-like strings, drops the missing value, runs six candidate
    regular expressions through two engines ([pandas] and [cuDF]) and
    records, per pattern, whether the two result columns agree.

    The file is laid out as follows:
    - [Re]: the bracket-expression matcher of section 4.1 of the
      specification (the engines are libraries, their code is not part of
      the repository);
    - [Notebook]: the code cells, with the two engines as section
      variables and the [try]/[except] blocks as an error monad over an
      explicit state;
    - the objects the properties speak about;
    - the properties: of the matcher, of the loop, of the run on the
      notebook's own data, of the engines' failures, and of the missing
      value. *)

From stdpp Require Import gmap strings list fin_maps.
From Stdlib Require Import ZArith Ascii DecimalString DecimalNat.

Local Open Scope string_scope.
Local Open Scope list_scope.

(* ===================================================================== *)
(** * Part 1: the bracket-expression matcher                              *)
(* ===================================================================== *)

(** Modelled from the spec: the regular-expression engines that
    [Series.str.match] calls are library code and no part of the
    repository.  This module is the matcher that section 4.1 of the
    specification describes for patterns of the shape
    [^[local]+@[host]+\.[tail]+$]: literals, escaped literals, character
    classes built from literals, escaped literals and ranges, the
    quantifier [+], the two anchors and plain groups.  A hyphen is a
    literal member of a class when it is first, last or escaped; a hyphen
    that directly follows a completed range, as in [0-9-.], is a literal
    as well, which is how the grammar cited in the notebook's first cell
    reads it and what the specification's last testable property asks
    for.  Matching is anchored at the start, as [Series.str.match] is. *)
Module Re.

(** Outcome of compiling a pattern.  [ReError] is the engine refusing the
    pattern; [OutOfFragment] marks syntax this model gives no meaning to
    (alternation, counted repeats, letter escapes, group extensions). *)
Inductive outcome (A : Type) : Type :=
| Parsed (a : A)
| ReError (msg : string)
| OutOfFragment.
Arguments Parsed {A} a.
Arguments ReError {A} msg.
Arguments OutOfFragment {A}.

(** Members of a character class: a literal, or a range [lo-hi]. *)
Inductive set_item : Type :=
| LITERAL (c : ascii)
| RANGE (lo hi : ascii).

(** One-character pieces of a pattern. *)
Inductive atom : Type :=
| Lit (c : ascii)
| Any
| In (negate : bool) (set : list set_item).

(** Pattern items: the two anchors, an atom, an atom under [+]. *)
Inductive item : Type :=
| AT_BEGINNING
| AT_END
| One (a : atom)
| MaxRepeat1 (a : atom).

Definition regex : Type := list item.

Definition ord (c : ascii) : nat := nat_of_ascii c.

Definition in_range (lo hi c : ascii) : bool :=
  Nat.leb (ord lo) (ord c) && Nat.leb (ord c) (ord hi).

Definition is_alnum (c : ascii) : bool :=
  in_range "a" "z" c || in_range "A" "Z" c || in_range "0" "9" c.

(** What the scanner remembers about the item before the cursor: it
    decides whether a following [+] has something to repeat. *)
Inductive prev_kind : Type :=
| PNone      (* start of the pattern or of a group *)
| PAt        (* an anchor *)
| PAtom      (* a literal, a dot or a class *)
| PRepeat    (* an item already under a quantifier *)
| PGroup.    (* a closed group *)

Record pstate : Type := mk_pstate {
  depth : nat;            (* open groups *)
  prev : prev_kind;
  items : list item       (* parsed so far, last item first *)
}.

Definition push (k : prev_kind) (it : item) (st : pstate) : pstate :=
  mk_pstate (depth st) k (it :: items st).

(** Scanner modes.  The set modes carry the negation flag and the members
    read so far (last one first). *)
Inductive mode : Type :=
| Top
| TopEsc
| AfterOpen
| AfterPlus
| SetOpen
| InSet (negate : bool) (set : list set_item)
| SetEsc (negate : bool) (set : list set_item)
| AfterCode1 (negate : bool) (set : list set_item) (code1 : ascii)
| AfterDash (negate : bool) (set : list set_item) (code1 : ascii)
| RangeEsc (negate : bool) (set : list set_item) (code1 : ascii).

Inductive action : Type :=
| Goto (m : mode) (st : pstate)
| Stop (o : outcome regex).

Definition close_set (negate : bool) (set : list set_item) (st : pstate) : action :=
  Goto Top (push PAtom (One (In negate (rev set))) st).

Definition add_range (negate : bool) (set : list set_item) (lo hi : ascii)
    (st : pstate) : action :=
  if Nat.ltb (ord hi) (ord lo)
  then Stop (ReError "bad character range")
  else Goto (InSet negate (RANGE lo hi :: set)) st.

(** Repeat the previous item. *)
Definition repeat_prev (st : pstate) : action :=
  match prev st, items st with
  | PAtom, One a :: its => Goto AfterPlus (mk_pstate (depth st) PRepeat (MaxRepeat1 a :: its))
  | PAtom, _ => Stop OutOfFragment
  | PNone, _ => Stop (ReError "nothing to repeat")
  | PAt, _ => Stop (ReError "nothing to repeat")
  | PRepeat, _ => Stop (ReError "multiple repeat")
  | PGroup, _ => Stop OutOfFragment
  end.

Definition step_top (st : pstate) (this : ascii) : action :=
  if Ascii.eqb this "\" then Goto TopEsc st
  else if Ascii.eqb this "[" then Goto SetOpen st
  else if Ascii.eqb this "+" then repeat_prev st
  else if Ascii.eqb this "(" then Goto AfterOpen st
  else if Ascii.eqb this ")" then
    match depth st with
    | O => Stop (ReError "unbalanced parenthesis")
    | S d => Goto Top (mk_pstate d PGroup (items st))
    end
  else if Ascii.eqb this "^" then Goto Top (push PAt AT_BEGINNING st)
  else if Ascii.eqb this "$" then Goto Top (push PAt AT_END st)
  else if Ascii.eqb this "." then Goto Top (push PAtom (One Any) st)
  else if Ascii.eqb this "*" || Ascii.eqb this "?" || Ascii.eqb this "{"
          || Ascii.eqb this "|" then Stop OutOfFragment
  else Goto Top (push PAtom (One (Lit this)) st).

Definition step_in_set (negate : bool) (set : list set_item) (st : pstate)
    (this : ascii) : action :=
  if Ascii.eqb this "]" && negb (match set with [] => true | _ => false end)
  then close_set negate set st
  else if Ascii.eqb this "\" then Goto (SetEsc negate set) st
  else Goto (AfterCode1 negate set this) st.

(** Modelled from the spec: one character of the scan over the pattern
    (section 4.1, "a simple scan over the class body").  In a class, a
    member [code1] is read first; a hyphen after it opens a range unless
    the class ends right there; anything else makes [code1] a literal. *)
Definition step (m : mode) (st : pstate) (this : ascii) : action :=
  match m with
  | Top => step_top st this
  | TopEsc =>
      if is_alnum this then Stop OutOfFragment
      else Goto Top (push PAtom (One (Lit this)) st)
  | AfterOpen =>
      if Ascii.eqb this "?" then Stop OutOfFragment
      else step_top (mk_pstate (S (depth st)) PNone (items st)) this
  | AfterPlus =>
      if Ascii.eqb this "?" || Ascii.eqb this "+" then Stop OutOfFragment
      else step_top st this
  | SetOpen =>
      if Ascii.eqb this "^" then Goto (InSet true []) st
      else step_in_set false [] st this
  | InSet negate set => step_in_set negate set st this
  | SetEsc negate set =>
      if is_alnum this then Stop OutOfFragment
      else Goto (AfterCode1 negate set this) st
  | AfterCode1 negate set code1 =>
      if Ascii.eqb this "-" then Goto (AfterDash negate set code1) st
      else step_in_set negate (LITERAL code1 :: set) st this
  | AfterDash negate set code1 =>
      if Ascii.eqb this "]"
      then close_set negate (LITERAL "-" :: LITERAL code1 :: set) st
      else if Ascii.eqb this "\" then Goto (RangeEsc negate set code1) st
      else add_range negate set code1 this st
  | RangeEsc negate set code1 =>
      if is_alnum this then Stop OutOfFragment
      else add_range negate set code1 this st
  end.

(** Modelled from the spec: the end of the pattern.  An open group, an
    open class or a dangling escape is refused. *)
Definition finish (m : mode) (st : pstate) : outcome regex :=
  match m with
  | Top | AfterPlus =>
      match depth st with
      | O => Parsed (rev (items st))
      | S _ => ReError "missing ), unterminated subpattern"
      end
  | AfterOpen => ReError "missing ), unterminated subpattern"
  | TopEsc | SetEsc _ _ | RangeEsc _ _ _ => ReError "bad escape (end of pattern)"
  | SetOpen | InSet _ _ | AfterCode1 _ _ _ | AfterDash _ _ _ =>
      ReError "unterminated character set"
  end.

(** Modelled from the spec: the scan, one character at a time. *)
Fixpoint scan (m : mode) (st : pstate) (src : list ascii) : outcome regex :=
  match src with
  | [] => finish m st
  | this :: rest =>
      match step m st this with
      | Goto m' st' => scan m' st' rest
      | Stop o => o
      end
  end.

(** Modelled from the spec: compiling a pattern, once per pattern. *)
Definition compile (pat : string) : outcome regex :=
  scan Top (mk_pstate 0 PNone []) (String.list_ascii_of_string pat).

(** ** Matching *)

(** Modelled from the spec: class membership, "each character
    independently tested against the class membership predicate". *)
Definition set_item_accepts (c : ascii) (it : set_item) : bool :=
  match it with
  | LITERAL x => Ascii.eqb c x
  | RANGE lo hi => in_range lo hi c
  end.

Definition set_accepts (set : list set_item) (c : ascii) : bool :=
  existsb (set_item_accepts c) set.

Definition newline : ascii := "010"%char.

Definition atom_accepts (a : atom) (c : ascii) : bool :=
  match a with
  | Lit x => Ascii.eqb c x
  | Any => negb (Ascii.eqb c newline)
  | In negate set => xorb negate (set_accepts set c)
  end.

(** Modelled from the spec: the end anchor.  Without the multiline flag
    it holds at the end of the string, or just before a newline that ends
    it. *)
Definition at_end (s : list ascii) : bool :=
  match s with
  | [] => true
  | [c] => Ascii.eqb c newline
  | _ => false
  end.

(** Modelled from the spec: the rest of a repetition under [+].  Take one
    more character of the class when possible, fall back to the
    continuation otherwise. *)
Fixpoint repeat_then (a : atom) (k : list ascii -> bool) (s : list ascii) : bool :=
  match s with
  | c :: s' => (atom_accepts a c && repeat_then a k s') || k s
  | [] => k s
  end.

(** Modelled from the spec: match the items at the cursor; [bos] says the
    cursor is at the beginning of the string.  The items need not consume
    the whole string: the patterns' own [$] asks for that. *)
Fixpoint sre_match (its : regex) (bos : bool) (s : list ascii) : bool :=
  match its with
  | [] => true
  | AT_BEGINNING :: r => bos && sre_match r bos s
  | AT_END :: r => at_end s && sre_match r bos s
  | One a :: r =>
      match s with
      | c :: s' => atom_accepts a c && sre_match r false s'
      | [] => false
      end
  | MaxRepeat1 a :: r =>
      match s with
      | c :: s' => atom_accepts a c && repeat_then a (sre_match r false) s'
      | [] => false
      end
  end.

Definition matches (r : regex) (s : string) : bool :=
  sre_match r true (String.list_ascii_of_string s).

(** Modelled from the spec: the boolean match result of one string under
    one pattern, or [None] when the pattern does not compile. *)
Definition re_match (pat s : string) : option bool :=
  match compile pat with
  | Parsed r => Some (matches r s)
  | _ => None
  end.

(** Modelled from the spec: the single-character acceptance predicate of
    a pattern that is one character class. *)
Definition char_class (pat : string) : option (ascii -> bool) :=
  match compile pat with
  | Parsed [One (In negate set)] => Some (fun c => xorb negate (set_accepts set c))
  | _ => None
  end.

End Re.

(* ===================================================================== *)
(** * Part 2: the notebook                                                *)
(* ===================================================================== *)

Module Notebook.

(** ** Values *)

(** Elements of [test_data_list]: a string, or [np.nan]. *)
Inductive pyval : Type :=
| Str (s : string)
| NaN.

(** [str(v)] *)
Definition py_str (v : pyval) : string :=
  match v with
  | Str s => s
  | NaN => "nan"
  end.

(** [str(n)] for an integer. *)
Definition str_of_nat (n : nat) : string :=
  NilEmpty.string_of_uint (Nat.to_uint n).

Definition str_of_Z (z : Z) : string :=
  NilEmpty.string_of_int (Z.to_int z).

(** A Series: the rows in order, each with its index label.  The same
    type stands for the [pandas] and the [cuDF] series: [to_pandas] and
    [from_pandas] keep labels and values. *)
Definition Series (A : Type) : Type := list (nat * A).

Definition index {A} (s : Series A) : list nat := s.*1.
Definition values {A} (s : Series A) : list A := s.*2.
Definition size {A} (s : Series A) : nat := length s.

(** [pd.Series(l)]: the default index 0, 1, ... *)
Definition mk_Series {A} (l : list A) : Series A := zip (seq 0 (length l)) l.

(** [dropna]: rows holding [np.nan] go, the others keep their label. *)
Definition dropna (s : Series pyval) : Series string :=
  omap (fun row => match row.2 with
                   | Str x => Some (row.1, x)
                   | NaN => None
                   end) s.

(** A result column is boolean, or float64 once the error value has been
    written into it.  The only float ever stored is the integer -1. *)
Inductive dseries : Type :=
| SBool (s : Series bool)
| SFloat (s : Series Z).

Inductive ndarray : Type :=
| ABool (a : list bool)
| AFloat (a : list Z).

Definition to_numpy (c : dseries) : ndarray :=
  match c with
  | SBool s => ABool (values s)
  | SFloat s => AFloat (values s)
  end.

Definition to_pandas (c : dseries) : dseries := c.

(** [cudf.Series.from_pandas] of a float array: default index. *)
Definition from_pandas (a : list Z) : dseries := SFloat (mk_Series a).

(** [Series.equals]: same index, same dtype, same values. *)
Definition equals (p : Series bool) (other : dseries) : bool :=
  match other with
  | SBool q => bool_decide (index p = index q) && bool_decide (values p = values q)
  | SFloat _ => false
  end.

(** Columns of [results_by_data_point_dict]. *)
Inductive column : Type :=
| CList (l : list pyval)
| CSeries (s : Series bool)
| CArray (a : ndarray).

(** ** Engines *)

(** [Series.str.match] compiles the pattern, which may raise, and then
    tests every row with the compiled pattern. *)
Inductive engine_result : Type :=
| Raises (msg : string)
| Returns (f : string -> bool).

Definition engine : Type := string -> engine_result.

Inductive match_result : Type :=
| MRaises (msg : string)
| MReturns (m : Series bool).

Definition str_match (e : engine) (pat : string) (s : Series string) : match_result :=
  match e pat with
  | Raises msg => MRaises msg
  | Returns f => MReturns (prod_map id f <$> s)
  end.

(** ** Exceptions that leave the cell *)

Inductive exn : Type :=
| NameError (name : string).

Inductive exc (A : Type) : Type :=
| Ok (a : A)
| Raise (e : exn).
Arguments Ok {A} a.
Arguments Raise {A} e.

Definition bind {A B} (m : exc A) (k : A -> exc B) : exc B :=
  match m with
  | Ok a => k a
  | Raise e => Raise e
  end.

Notation "x <- m ;; k" := (bind m (fun x => k))
  (at level 100, m at next level, right associativity).

(** ** Cell 2: the data *)

Definition test_data_list : list pyval :=
  [ Str "john.smith@example.com";
    NaN;
    Str "team@domain.com";
    Str "junk@example.com";
    Str "hithere@whatsup.yo";
    Str "hi-there@whatsup.yo";
    Str "hithere@whats-up.yo";
    Str "hi-there@whats-up.yo";
    Str "hi.there@whatsup.yo";
    Str "hithere@whats.up.yo";
    Str "hi.there@whats.up.yo";
    Str "hi_there@whats.up.yo";
    Str "hi_there@whats_up.yo" ].

(** ** Cell 3: the candidates *)

Definition candidate_regexes : list string :=
  [ "(^[a-zA-Z0-9_.+-]+@[a-zA-Z0-9-]+\.[a-zA-Z0-9-.]+$)";
    "(^[a-zA-Z0-9_.+\-]+@[a-zA-Z0-9\-]+\.[a-zA-Z0-9-.]+$)";
    "(^[a-zA-Z0-9_+-.]+@[a-zA-Z0-9-.]+\.[a-zA-Z0-9-.]+$)";
    "(^[a-zA-Z0-9_+-.]+@[a-zA-Z0-9\-.]+\.[a-zA-Z0-9-.]+$)";
    "(^[a-zA-Z0-9_+-.]+@[a-zA-Z0-9.\-]+\.[a-zA-Z0-9-.]+$)";
    "(^[a-zA-Z0-9_+-.]+@[a-zA-Z0-9-\.]+\.[a-zA-Z0-9-.]+$)" ].

Definition err_match_value : Z := (-1)%Z.

Definition key_pd (ii : nat) : string := "pd-regex-" +:+ str_of_nat ii.
Definition key_cu (ii : nat) : string := "cu-regex-" +:+ str_of_nat ii.

(** The variables of the notebook that the loop reads and writes.  A
    variable that has not been assigned yet is [None]. *)
Record state : Type := mk_state {
  pd_matches : option (Series bool);
  cu_matches : option dseries;
  results_by_data_point_dict : gmap string column;
  are_regex_results_equal : list Z;
  stdout : list string
}.

Definition set_pd_matches (m : Series bool) (st : state) : state :=
  mk_state (Some m) (cu_matches st) (results_by_data_point_dict st)
           (are_regex_results_equal st) (stdout st).

Definition set_cu_matches (c : dseries) (st : state) : state :=
  mk_state (pd_matches st) (Some c) (results_by_data_point_dict st)
           (are_regex_results_equal st) (stdout st).

Definition print (line : string) (st : state) : state :=
  mk_state (pd_matches st) (cu_matches st) (results_by_data_point_dict st)
           (are_regex_results_equal st) (stdout st ++ [line]).

(** [d.update(this_run_dict)] *)
Definition dict_update (this_run_dict : list (string * column))
    (d : gmap string column) : gmap string column :=
  foldl (fun acc kv => <[kv.1 := kv.2]> acc) d this_run_dict.

Definition update_results (this_run_dict : list (string * column)) (st : state) : state :=
  mk_state (pd_matches st) (cu_matches st)
           (dict_update this_run_dict (results_by_data_point_dict st))
           (are_regex_results_equal st) (stdout st).

(** [are_regex_results_equal[ii] = b]: the boolean is stored as 1.0 or 0.0. *)
Definition store_equal (ii : nat) (b : bool) (st : state) : state :=
  mk_state (pd_matches st) (cu_matches st) (results_by_data_point_dict st)
           (<[ii := Z.b2z b]> (are_regex_results_equal st)) (stdout st).

(** Reading a variable: [NameError] when it is not bound. *)
Definition read {A} (name : string) (v : option A) : exc A :=
  match v with
  | Some a => Ok a
  | None => Raise (NameError name)
  end.

Section Harness.

(** The two engines, and what [np.empty] finds in memory. *)
Variables pd_engine cu_engine : engine.
Variable uninit : nat -> Z.

(** The literal list of the second cell; a variable so that runs on two
    lists can be compared. *)
Variable data : list pyval.

Definition np_empty (n : nat) : list Z := uninit <$> seq 0 n.

(** [a[:] = v] *)
Definition fill (v : Z) (a : list Z) : list Z := (fun _ => v) <$> a.

Definition pd_raw_series : Series pyval := mk_Series data.
Definition cu_raw_series : Series pyval := mk_Series data.
Definition pd_series : Series string := dropna pd_raw_series.
Definition cu_series : Series string := dropna cu_raw_series.

Definition test_data_to_show : list pyval :=
  filter (fun emailadr => py_str emailadr ≠ "nan") data.

(** The body of [for ii, my_rgx in enumerate(candidate_regexes)]. *)
Definition loop_body (ii : nat) (my_rgx : string) (st : state) : exc state :=
  (* try: pd_matches = pd_series.str.match(pat=my_rgx)
     except: print('Error running pandas series.') *)
  let st :=
    match str_match pd_engine my_rgx pd_series with
    | MReturns m => set_pd_matches m st
    | MRaises _ => print "Error running pandas series." st
    end in
  (* try: cu_matches = cu_series.str.match(pat=my_rgx)
     except Exception as e: ... *)
  st <- match str_match cu_engine my_rgx cu_series with
        | MReturns m => Ok (set_cu_matches (SBool m) st)
        | MRaises e =>
            p <- read "pd_matches" (pd_matches st) ;;
            let cu_error_matches := fill err_match_value (np_empty (size p)) in
            let st := set_cu_matches (from_pandas cu_error_matches) st in
            let st := print e st in
            Ok (print ("Error running cuDF series.  Setting regex match value to "
                       +:+ str_of_Z err_match_value +:+ ".") st)
        end ;;
  p <- read "pd_matches" (pd_matches st) ;;
  c <- read "cu_matches" (cu_matches st) ;;
  let this_run_dict :=
    [ (key_pd ii, CSeries p); (key_cu ii, CArray (to_numpy c)) ] in
  let st := update_results this_run_dict st in
  Ok (store_equal ii (equals p (to_pandas c)) st).

(** The loop, from index [ii] on. *)
Fixpoint for_each (ii : nat) (rgxs : list string) (st : state) : exc state :=
  match rgxs with
  | [] => Ok st
  | my_rgx :: rest =>
      st' <- loop_body ii my_rgx st ;;
      for_each (S ii) rest st'
  end.

Variable regexes : list string.

(** The variables as the loop finds them when the cells are run once,
    top to bottom, in a fresh kernel: [pd_matches] and [cu_matches] are
    not bound yet. *)
Definition initial : state :=
  mk_state None None
           {[ "email" := CList test_data_to_show ]}
           (np_empty (length regexes))
           [].

(** What the cell displays: the flags next to the patterns, and the table
    built from [results_by_data_point_dict], kept here as the dictionary
    itself.  The printed lines come along. *)
Record output : Type := mk_output {
  do_pandas_and_cudf_match : list bool;   (* are_regex_results_equal > 0 *)
  results_df : gmap string column;
  printed : list string
}.

Definition finalize (st : state) : output :=
  mk_output ((fun x => bool_decide (0 < x)%Z) <$> are_regex_results_equal st)
            (results_by_data_point_dict st)
            (stdout st).

Definition run : exc output :=
  st <- for_each 0 regexes initial ;;
  Ok (finalize st).

End Harness.

End Notebook.

(* ===================================================================== *)
(** * Part 3: the objects the properties speak about                      *)
(* ===================================================================== *)

Import Notebook.

(** The [i]-th candidate pattern. *)
Definition candidate (i : nat) : string := nth i candidate_regexes "".

(** The strings that survive [dropna], in order. *)
Definition retained : list string := values (pd_series test_data_list).

(** Modelled from the spec: the matcher of part 1 packaged as an engine,
    standing for an engine that follows the cited grammar. *)
Definition re_engine : engine :=
  fun pat =>
    match Re.compile pat with
    | Re.Parsed r => Returns (Re.matches r)
    | Re.ReError msg => Raises msg
    | Re.OutOfFragment => Raises "unsupported pattern"
    end.

(** The members of [[a-zA-Z0-9-.]] and of [[a-zA-Z0-9.-]], in the order
    the scan reads them. *)
Definition alnum_dash_dot : list Re.set_item :=
  [Re.RANGE "a" "z"; Re.RANGE "A" "Z"; Re.RANGE "0" "9";
   Re.LITERAL "-"; Re.LITERAL "."].

Definition alnum_dot_dash : list Re.set_item :=
  [Re.RANGE "a" "z"; Re.RANGE "A" "Z"; Re.RANGE "0" "9";
   Re.LITERAL "."; Re.LITERAL "-"].

(** Two atoms that accept the same characters, two items built alike from
    such atoms. *)
Definition atom_equiv (a b : Re.atom) : Prop :=
  ∀ c, Re.atom_accepts a c = Re.atom_accepts b c.

Inductive item_equiv : Re.item -> Re.item -> Prop :=
| equiv_begin : item_equiv Re.AT_BEGINNING Re.AT_BEGINNING
| equiv_end : item_equiv Re.AT_END Re.AT_END
| equiv_one a b : atom_equiv a b -> item_equiv (Re.One a) (Re.One b)
| equiv_repeat a b : atom_equiv a b -> item_equiv (Re.MaxRepeat1 a) (Re.MaxRepeat1 b).

(** The loop body in closed form.  [pd_after] is the value of
    [pd_matches] once the first [try] block is through: the fresh column,
    or whatever the variable held before. *)
Definition pd_after (pd : engine) (data : list pyval) (rgx : string)
    (before : option (Series bool)) : option (Series bool) :=
  match pd rgx with
  | Returns f => Some (prod_map id f <$> pd_series data)
  | Raises _ => before
  end.

(** [cu_after] is the value of [cu_matches] once the second [try] block is
    through, given the value [p] of [pd_matches]. *)
Definition cu_after (cu : engine) (data : list pyval) (rgx : string)
    (p : Series bool) : dseries :=
  match cu rgx with
  | Returns g => SBool (prod_map id g <$> cu_series data)
  | Raises _ => SFloat (mk_Series (replicate (size p) err_match_value))
  end.

Definition pd_log (pd : engine) (rgx : string) : list string :=
  match pd rgx with
  | Returns _ => []
  | Raises _ => ["Error running pandas series."]
  end.

Definition cu_log (cu : engine) (rgx : string) : list string :=
  match cu rgx with
  | Returns _ => []
  | Raises e => [e; "Error running cuDF series.  Setting regex match value to -1."]
  end.

Definition after_body (pd cu : engine) (data : list pyval) (ii : nat)
    (rgx : string) (p : Series bool) (st : state) : state :=
  let c := cu_after cu data rgx p in
  mk_state (Some p) (Some c)
           (<[key_cu ii := CArray (to_numpy c)]>
              (<[key_pd ii := CSeries p]> (results_by_data_point_dict st)))
           (<[ii := Z.b2z (equals p c)]> (are_regex_results_equal st))
           (stdout st ++ pd_log pd rgx ++ cu_log cu rgx).

(** Pattern [rgx], handled at index [ii], has left its two columns and its
    flag in [st]: the first-engine column [p] has the labels of
    [pd_series] and is the fresh result when the first engine returned on
    [rgx]; the second-engine column and the flag are computed from [p]. *)
Definition recorded (pd cu : engine) (data : list pyval) (st : state)
    (ii : nat) (rgx : string) : Prop :=
  ∃ p : Series bool,
    results_by_data_point_dict st !! key_pd ii = Some (CSeries p) ∧
    results_by_data_point_dict st !! key_cu ii
      = Some (CArray (to_numpy (cu_after cu data rgx p))) ∧
    are_regex_results_equal st !! ii
      = Some (Z.b2z (equals p (cu_after cu data rgx p))) ∧
    index p = index (pd_series data) ∧
    (∀ f, pd rgx = Returns f -> p = prod_map id f <$> pd_series data).

(** [pd_matches], when bound, has the labels of [pd_series]. *)
Definition shaped (data : list pyval) (st : state) : Prop :=
  ∀ p, pd_matches st = Some p -> index p = index (pd_series data).

(** The entries of a column, row by row, without the labels: a string of
    the display list, a boolean match result, or a float. *)
Inductive cell : Type :=
| Text (v : pyval)
| Matched (b : bool)
| Number (z : Z).

Definition array_cells (a : ndarray) : list cell :=
  match a with
  | ABool l => Matched <$> l
  | AFloat l => Number <$> l
  end.

Definition column_cells (c : column) : list cell :=
  match c with
  | CList l => Text <$> l
  | CSeries s => Matched <$> values s
  | CArray a => array_cells a
  end.

(** An engine that raises on every pattern, and one that raises on the
    first candidate only. *)
Definition raising : engine := fun _ => Raises "error".

Definition raising_on_first : engine :=
  fun pat => if decide (pat = candidate 0) then Raises "error" else re_engine pat.

(** Memory that [np.empty] finds zeroed. *)
Definition zeroed : nat -> Z := fun _ => 0%Z.

(** The input list with the missing value taken out beforehand. *)
#[global] Instance pyval_eq_dec : EqDecision pyval.
Proof. solve_decision. Defined.

Definition without_nan (data : list pyval) : list pyval :=
  filter (fun v => v ≠ NaN) data.

(** The strings of a list of values, in order. *)
Definition strings_of (l : list pyval) : list string :=
  omap (fun v => match v with Str x => Some x | NaN => None end) l.

(** The same rows under the default labels 0, 1, ...: two runs whose
    inputs differ in where the missing value sits differ in the labels of
    their series and in nothing else. *)
Definition reset_index {A} (s : Series A) : Series A := mk_Series (values s).

Definition reset_dseries (c : dseries) : dseries :=
  match c with
  | SBool s => SBool (reset_index s)
  | SFloat s => SFloat (reset_index s)
  end.

Definition reset_column (c : column) : column :=
  match c with
  | CSeries s => CSeries (reset_index s)
  | CList l => CList l
  | CArray a => CArray a
  end.

Definition reset_state (st : state) : state :=
  mk_state (reset_index <$> pd_matches st)
           (reset_dseries <$> cu_matches st)
           (reset_column <$> results_by_data_point_dict st)
           (are_regex_results_equal st)
           (stdout st).

Definition reset_output (o : output) : output :=
  mk_output (do_pandas_and_cudf_match o)
            (reset_column <$> results_df o)
            (printed o).

Definition exc_map {A B} (f : A -> B) (m : exc A) : exc B :=
  match m with
  | Ok a => Ok (f a)
  | Raise e => Raise e
  end.

(** An engine that raises on the second candidate only. *)
Definition raising_on_second : engine :=
  fun pat => if decide (pat = candidate 1) then Raises "error" else re_engine pat.

(** An atom that accepts at least the characters of another one, and
    items built alike from such atoms. *)
Definition atom_le (a b : Re.atom) : Prop :=
  ∀ c, Re.atom_accepts a c = true -> Re.atom_accepts b c = true.

Inductive item_le : Re.item -> Re.item -> Prop :=
| le_begin : item_le Re.AT_BEGINNING Re.AT_BEGINNING
| le_end : item_le Re.AT_END Re.AT_END
| le_one a b : atom_le a b -> item_le (Re.One a) (Re.One b)
| le_repeat a b : atom_le a b -> item_le (Re.MaxRepeat1 a) (Re.MaxRepeat1 b).

(* ===================================================================== *)
(** * Part 4: properties of the matcher                                   *)
(* ===================================================================== *)

Section MatcherFacts.

Lemma repeat_then_ext a b k1 k2 s :
  atom_equiv a b -> (∀ t, k1 t = k2 t) ->
  Re.repeat_then a k1 s = Re.repeat_then b k2 s.
Proof.
  intros Hab Hk. induction s as [|c s IH]; simpl.
  - apply Hk.
  - rewrite (Hab c), IH, (Hk (c :: s)). reflexivity.
Qed.

(** Matching only sees which characters each class accepts. *)
Lemma sre_match_ext r1 r2 :
  Forall2 item_equiv r1 r2 ->
  ∀ bos s, Re.sre_match r1 bos s = Re.sre_match r2 bos s.
Proof.
  induction 1 as [|x y r1 r2 Hxy _ IH]; intros bos s; [reflexivity|].
  destruct Hxy as [| |a b Hab|a b Hab]; simpl.
  - by rewrite IH.
  - by rewrite IH.
  - destruct s as [|c s]; [reflexivity|]. by rewrite (Hab c), IH.
  - destruct s as [|c s]; [reflexivity|].
    rewrite (Hab c). f_equal. apply repeat_then_ext; [exact Hab|]. intros t. apply IH.
Qed.

Lemma atom_equiv_refl a : atom_equiv a a.
Proof. intros c. reflexivity. Qed.

Lemma item_equiv_refl x : item_equiv x x.
Proof. destruct x; constructor; apply atom_equiv_refl. Qed.

(** The two orders of the literals [-] and [.] after the three ranges. *)
Lemma dash_dot_swap negate :
  atom_equiv (Re.In negate alnum_dash_dot) (Re.In negate alnum_dot_dash).
Proof.
  intros c. unfold Re.atom_accepts, Re.set_accepts, alnum_dash_dot, alnum_dot_dash.
  simpl.
  destruct (Re.in_range "a" "z" c), (Re.in_range "A" "Z" c),
    (Re.in_range "0" "9" c), (Ascii.eqb c "-"), (Ascii.eqb c "."); reflexivity.
Qed.

Lemma compile_candidate_0_1 : Re.compile (candidate 0) = Re.compile (candidate 1).
Proof. vm_compute. reflexivity. Qed.

(** Candidates 0 and 1 are the same pattern once compiled, so they agree
    on every string, retained or not. *)
Lemma re_match_candidate_0_1 s :
  Re.re_match (candidate 0) s = Re.re_match (candidate 1) s.
Proof. unfold Re.re_match. by rewrite compile_candidate_0_1. Qed.

Lemma candidate_0_compiles : ∃ r, Re.compile (candidate 0) = Re.Parsed r.
Proof. eexists. vm_compute. reflexivity. Qed.

(** Candidates 2 to 5 compile to item-wise equivalent patterns: three
    of them to the very same items, candidate 4 with [.] and [-]
    swapped in the host class. *)
Lemma candidates_2_to_5_equiv (i : nat) :
  (2 ≤ i ≤ 5)%nat ->
  ∃ r2 ri, Re.compile (candidate 2) = Re.Parsed r2 ∧
           Re.compile (candidate i) = Re.Parsed ri ∧
           Forall2 item_equiv r2 ri.
Proof.
  intros Hi.
  assert (i = 2 ∨ i = 3 ∨ i = 4 ∨ i = 5) as [-> | [-> | [-> | ->]]] by lia;
    (eexists; eexists; split; [vm_compute; reflexivity|];
     split; [vm_compute; reflexivity|];
     repeat constructor; first [apply dash_dot_swap | apply atom_equiv_refl]).
Qed.

Lemma re_match_candidates_2_to_5 (i j : nat) (s : string) :
  (2 ≤ i ≤ 5)%nat -> (2 ≤ j ≤ 5)%nat ->
  ∃ b, Re.re_match (candidate i) s = Some b ∧ Re.re_match (candidate j) s = Some b.
Proof.
  intros Hi Hj.
  destruct (candidates_2_to_5_equiv i Hi) as (r2 & ri & H2 & Hci & Ei).
  destruct (candidates_2_to_5_equiv j Hj) as (r2' & rj & H2' & Hcj & Ej).
  rewrite H2 in H2'. injection H2' as <-.
  exists (Re.matches r2 s). unfold Re.re_match, Re.matches. rewrite Hci, Hcj.
  by rewrite <- (sre_match_ext _ _ Ei), <- (sre_match_ext _ _ Ej).
Qed.

(** The three spellings of the tail class, as predicates on characters. *)
Lemma char_class_dash_dot :
  Re.char_class "[a-zA-Z0-9-.]" = Some (Re.atom_accepts (Re.In false alnum_dash_dot)).
Proof. vm_compute. reflexivity. Qed.

Lemma char_class_dot_dash :
  Re.char_class "[a-zA-Z0-9.-]" = Some (Re.atom_accepts (Re.In false alnum_dot_dash)).
Proof. vm_compute. reflexivity. Qed.

Lemma char_class_escaped_dash_dot :
  Re.char_class "[a-zA-Z0-9\-.]" = Some (Re.atom_accepts (Re.In false alnum_dash_dot)).
Proof. vm_compute. reflexivity. Qed.

Lemma tail_class_forms :
  ∃ p1 p2 p3,
    Re.char_class "[a-zA-Z0-9-.]" = Some p1 ∧
    Re.char_class "[a-zA-Z0-9.-]" = Some p2 ∧
    Re.char_class "[a-zA-Z0-9\-.]" = Some p3 ∧
    ∀ c, p1 c = p2 c ∧ p2 c = p3 c.
Proof.
  eexists _, _, _. split; [exact char_class_dash_dot|].
  split; [exact char_class_dot_dash|]. split; [exact char_class_escaped_dash_dot|].
  intros c. split.
  - apply (dash_dot_swap false c).
  - symmetry. apply (dash_dot_swap false c).
Qed.

Lemma re_engine_candidate_0 : ∃ f, re_engine (candidate 0) = Returns f.
Proof. unfold re_engine. destruct candidate_0_compiles as [r ->]. by eexists. Qed.

Lemma re_engine_candidate_1 : ∃ f, re_engine (candidate 1) = Returns f.
Proof.
  unfold re_engine. rewrite <- compile_candidate_0_1.
  destruct candidate_0_compiles as [r ->]. by eexists.
Qed.

End MatcherFacts.

(** C1. For every retained test string, candidate 0 (hyphen last in the
    class) and candidate 1 (hyphen escaped) give the same boolean match
    result; the string "hi-there@whatsup.yo" is matched by both. *)
Theorem C1_hyphen_last_equals_escaped (s : string) :
  s ∈ retained ->
  (∃ b, Re.re_match (candidate 0) s = Some b ∧ Re.re_match (candidate 1) s = Some b) ∧
  Re.re_match (candidate 0) "hi-there@whatsup.yo" = Some true ∧
  Re.re_match (candidate 1) "hi-there@whatsup.yo" = Some true.
Proof.
  intros _. split.
  - rewrite <- re_match_candidate_0_1. unfold Re.re_match.
    destruct candidate_0_compiles as [r ->]. by eexists.
  - split; vm_compute; reflexivity.
Qed.

Lemma C1_witness :
  "hi-there@whatsup.yo" ∈ retained ∧
  (∃ b, Re.re_match (candidate 0) "hi-there@whatsup.yo" = Some b ∧
        Re.re_match (candidate 1) "hi-there@whatsup.yo" = Some b).
Proof.
  assert (H : "hi-there@whatsup.yo" ∈ retained).
  { vm_compute. do 4 apply list_elem_of_further. apply list_elem_of_here. }
  split; [exact H|].
  exact (proj1 (C1_hyphen_last_equals_escaped "hi-there@whatsup.yo" H)).
Defined.

(** C2, as the code has it.  Candidate 0 matches "hi-there@whats-up.yo".
    It does not match "hi_there@whats_up.yo": the host class
    [[a-zA-Z0-9-]] has no underscore, although the local class has one. *)
Theorem C2_candidate_0_scenarios :
  Re.re_match (candidate 0) "hi-there@whats-up.yo" = Some true ∧
  Re.re_match (candidate 0) "hi_there@whats_up.yo" = Some false ∧
  (∃ host loc, Re.char_class "[a-zA-Z0-9-]" = Some host ∧
               Re.char_class "[a-zA-Z0-9_.+-]" = Some loc ∧
               host "_"%char = false ∧ loc "_"%char = true).
Proof.
  split; [vm_compute; reflexivity|]. split; [vm_compute; reflexivity|].
  do 2 eexists. repeat split; vm_compute; reflexivity.
Qed.

(** C2 as stated fails: the two strings are not both matched. *)
Lemma C2_counterexample :
  ¬ (Re.re_match (candidate 0) "hi-there@whats-up.yo" = Some true ∧
     Re.re_match (candidate 0) "hi_there@whats_up.yo" = Some true).
Proof. intros [_ H]. vm_compute in H. discriminate H. Qed.

(** C3. The classes [[a-zA-Z0-9-.]], [[a-zA-Z0-9.-]] and [[a-zA-Z0-9\-.]]
    accept the same characters, and any two of the candidates 2 to 5,
    which differ only in how the host class spells its hyphen, give the
    same match result on every retained string. *)
Theorem C3_hyphen_forms_equivalent (i j : nat) (s : string) :
  (2 ≤ i ≤ 5)%nat -> (2 ≤ j ≤ 5)%nat -> s ∈ retained ->
  (∃ p1 p2 p3,
      Re.char_class "[a-zA-Z0-9-.]" = Some p1 ∧
      Re.char_class "[a-zA-Z0-9.-]" = Some p2 ∧
      Re.char_class "[a-zA-Z0-9\-.]" = Some p3 ∧
      ∀ c, p1 c = p2 c ∧ p2 c = p3 c) ∧
  (∃ b, Re.re_match (candidate i) s = Some b ∧ Re.re_match (candidate j) s = Some b).
Proof.
  intros Hi Hj _. split.
  - exact tail_class_forms.
  - by apply re_match_candidates_2_to_5.
Qed.

Lemma C3_witness :
  ((2 ≤ 2 ≤ 5)%nat ∧ (2 ≤ 4 ≤ 5)%nat ∧ "john.smith@example.com" ∈ retained) ∧
  (∃ b, Re.re_match (candidate 2) "john.smith@example.com" = Some b ∧
        Re.re_match (candidate 4) "john.smith@example.com" = Some b).
Proof.
  assert (H : "john.smith@example.com" ∈ retained).
  { vm_compute. apply list_elem_of_here. }
  split; [repeat split; [lia..|exact H]|].
  exact (proj2 (C3_hyphen_forms_equivalent 2 4 "john.smith@example.com"
                  ltac:(lia) ltac:(lia) H)).
Defined.

(* ===================================================================== *)
(** * Part 5: properties of the loop                                      *)
(* ===================================================================== *)

Section LoopFacts.

Context (pd cu : engine) (uninit : nat -> Z) (data : list pyval).

Lemma fill_np_empty v n : fill v (np_empty uninit n) = replicate n v.
Proof.
  unfold fill, np_empty. rewrite <- list_fmap_compose.
  generalize 0. induction n as [|n IH]; intros k; simpl; [reflexivity|].
  by rewrite IH.
Qed.

(** The body when [pd_matches] is bound after the first [try]. *)
Lemma loop_body_bound ii rgx st p :
  pd_after pd data rgx (pd_matches st) = Some p ->
  loop_body pd cu uninit data ii rgx st = Ok (after_body pd cu data ii rgx p st).
Proof.
  unfold pd_after, loop_body, str_match, after_body, cu_after, pd_log, cu_log.
  intros Hp. destruct (pd rgx) as [m|f]; [|injection Hp as <-];
    destruct (cu rgx) as [e|g]; simpl;
    rewrite ?Hp; simpl; rewrite ?fill_np_empty;
    unfold update_results, store_equal, print, set_cu_matches, from_pandas; simpl;
    rewrite ?Hp; simpl; rewrite <- ?app_assoc, ?app_nil_r; reflexivity.
Qed.

(** The body when it is not: the first engine raised and nothing was
    left over.  Whatever the second engine does, the cell stops. *)
Lemma loop_body_unbound ii rgx st :
  pd_after pd data rgx (pd_matches st) = None ->
  loop_body pd cu uninit data ii rgx st = Raise (NameError "pd_matches").
Proof.
  unfold pd_after, loop_body, str_match.
  intros Hp. destruct (pd rgx) as [m|f]; [|discriminate]. simpl.
  destruct (cu rgx) as [e|g]; simpl; rewrite Hp; reflexivity.
Qed.

(** *** The keys [f'pd-regex-{ii}'] and [f'cu-regex-{ii}'] *)

Lemma str_of_nat_inj a b : str_of_nat a = str_of_nat b -> a = b.
Proof.
  unfold str_of_nat. intros H.
  apply (f_equal NilEmpty.uint_of_string) in H. rewrite !NilEmpty.usu in H.
  injection H as H. by apply Unsigned.to_uint_inj.
Qed.

Lemma key_pd_inj a b : key_pd a = key_pd b -> a = b.
Proof. unfold key_pd. simpl. intros H. injection H as H. by apply str_of_nat_inj. Qed.

Lemma key_cu_inj a b : key_cu a = key_cu b -> a = b.
Proof. unfold key_cu. simpl. intros H. injection H as H. by apply str_of_nat_inj. Qed.

Lemma key_pd_cu a b : key_pd a ≠ key_cu b.
Proof. unfold key_pd, key_cu. simpl. discriminate. Qed.

Lemma key_pd_email a : key_pd a ≠ "email".
Proof. unfold key_pd. simpl. discriminate. Qed.

Lemma key_cu_email a : key_cu a ≠ "email".
Proof. unfold key_cu. simpl. discriminate. Qed.

(** *** Shape of the columns *)

Lemma index_str_map (f : string -> bool) (s : Series string) :
  index (prod_map id f <$> s) = index s.
Proof.
  unfold index. rewrite <- list_fmap_compose. apply list_fmap_ext.
  by intros _ [i x] _.
Qed.

Lemma values_str_map (f : string -> bool) (s : Series string) :
  values (prod_map id f <$> s) = f <$> values s.
Proof.
  unfold values. rewrite <- !list_fmap_compose. apply list_fmap_ext.
  by intros _ [i x] _.
Qed.

Lemma index_size {A B} (s : Series A) (t : Series B) :
  index s = index t -> size s = size t.
Proof.
  unfold index, size. intros H. apply (f_equal length) in H.
  by rewrite !length_fmap in H.
Qed.

Lemma values_mk_Series {A} (l : list A) : values (mk_Series l) = l.
Proof. unfold values, mk_Series. apply snd_zip. by rewrite length_seq. Qed.

Lemma index_mk_Series {A} (l : list A) : index (mk_Series l) = seq 0 (length l).
Proof. unfold index, mk_Series. apply fst_zip. by rewrite length_seq. Qed.

Lemma size_values {A} (s : Series A) : length (values s) = size s.
Proof. unfold values, size. by rewrite length_fmap. Qed.

Lemma pd_after_shaped rgx st p :
  shaped data st -> pd_after pd data rgx (pd_matches st) = Some p ->
  index p = index (pd_series data).
Proof.
  unfold pd_after. intros Hst Hp. destruct (pd rgx) as [m|f].
  - by apply Hst.
  - injection Hp as <-. apply index_str_map.
Qed.

Lemma after_body_shaped ii rgx st p :
  index p = index (pd_series data) -> shaped data (after_body pd cu data ii rgx p st).
Proof. intros Hp q Hq. simpl in Hq. by injection Hq as <-. Qed.

(** *** The loop *)

(** Once [pd_matches] is bound the loop runs to its end. *)
Lemma for_each_bound rgxs : ∀ ii st,
  is_Some (pd_matches st) -> ∃ st', for_each pd cu uninit data ii rgxs st = Ok st'.
Proof.
  induction rgxs as [|r rest IH]; intros ii st [p Hp]; simpl; [by eexists|].
  assert (∃ q, pd_after pd data r (pd_matches st) = Some q) as [q Hq].
  { unfold pd_after. destruct (pd r); rewrite ?Hp; by eexists. }
  rewrite (loop_body_bound _ _ _ _ Hq). simpl. apply IH. simpl. by eexists.
Qed.

Lemma for_each_recorded rgxs : ∀ ii st st',
  shaped data st ->
  (ii + length rgxs ≤ length (are_regex_results_equal st))%nat ->
  for_each pd cu uninit data ii rgxs st = Ok st' ->
  (∀ k r, rgxs !! k = Some r -> recorded pd cu data st' (ii + k)%nat r) ∧
  (∀ key, (∀ k, (ii ≤ k)%nat -> key ≠ key_pd k ∧ key ≠ key_cu k) ->
          results_by_data_point_dict st' !! key = results_by_data_point_dict st !! key) ∧
  (∀ j, (j < ii)%nat -> are_regex_results_equal st' !! j = are_regex_results_equal st !! j) ∧
  length (are_regex_results_equal st') = length (are_regex_results_equal st) ∧
  shaped data st'.
Proof.
  induction rgxs as [|r rest IH]; intros ii st st' Hsh Hlen Hrun; simpl in *.
  - injection Hrun as <-. repeat split; done.
  - destruct (pd_after pd data r (pd_matches st)) as [p|] eqn:Hp.
    2:{ by rewrite (loop_body_unbound _ _ _ Hp) in Hrun. }
    rewrite (loop_body_bound _ _ _ _ Hp) in Hrun. simpl in Hrun.
    pose proof (pd_after_shaped _ _ _ Hsh Hp) as Hidx.
    destruct (IH (S ii) _ st' (after_body_shaped ii r st p Hidx)) as (Hrec & Hkeys & Harr & Hl & Hsh');
      [simpl; rewrite length_insert; lia | exact Hrun |].
    simpl in Hkeys, Harr, Hl. rewrite length_insert in Hl.
    repeat split; try done.
    + intros [|k] r' Hk; simpl in Hk.
      * injection Hk as <-. rewrite Nat.add_0_r. exists p. repeat split.
        -- rewrite Hkeys.
           ++ rewrite lookup_insert_ne by (intros H; by apply (key_pd_cu ii ii)).
              by rewrite lookup_insert_eq.
           ++ intros k Hle. split; [intros H; apply key_pd_inj in H; lia|apply key_pd_cu].
        -- rewrite Hkeys; [by rewrite lookup_insert_eq|].
           intros k Hle. split; [intros H; by apply (key_pd_cu k ii)|].
           intros H; apply key_cu_inj in H; lia.
        -- rewrite Harr by lia. apply list_lookup_insert_eq. lia.
        -- exact Hidx.
        -- intros f Hf. unfold pd_after in Hp. rewrite Hf in Hp. by injection Hp.
      * replace (ii + S k) with (S ii + k) by lia. by apply Hrec.
    + intros key Hkey. rewrite Hkeys by (intros k Hk; apply Hkey; lia).
      destruct (Hkey ii (Nat.le_refl _)) as [H1 H2]. by rewrite !lookup_insert_ne.
    + intros j Hj. rewrite Harr by lia. apply list_lookup_insert_ne. lia.
Qed.

(** *** The whole cell *)

Context (regexes : list string).

Lemma initial_shaped : shaped data (initial uninit data regexes).
Proof. intros p Hp. discriminate Hp. Qed.

Lemma length_np_empty n : length (np_empty uninit n) = n.
Proof. unfold np_empty. by rewrite length_fmap, length_seq. Qed.

(** The cell runs to its end when the first engine returns on the first
    pattern, and stops with [NameError] when it raises there. *)
Lemma run_completes r rest f :
  regexes = r :: rest -> pd r = Returns f ->
  ∃ out, run pd cu uninit data regexes = Ok out.
Proof.
  intros -> Hf. unfold run. simpl.
  assert (Hp : pd_after pd data r (pd_matches (initial uninit data (r :: rest)))
               = Some (prod_map id f <$> pd_series data)).
  { unfold pd_after. by rewrite Hf. }
  rewrite (loop_body_bound _ _ _ _ Hp). simpl.
  edestruct (for_each_bound rest 1) as [st' ->]; [|by eexists].
  simpl. by eexists.
Qed.

Lemma run_stops r rest msg :
  regexes = r :: rest -> pd r = Raises msg ->
  run pd cu uninit data regexes = Raise (NameError "pd_matches").
Proof.
  intros -> Hf. unfold run. simpl.
  rewrite loop_body_unbound; [reflexivity|].
  unfold pd_after. by rewrite Hf.
Qed.

Lemma flag_of_b2z (b : bool) : bool_decide (0 < Z.b2z b)%Z = b.
Proof. by destruct b. Qed.

(** What a completed run has recorded for the pattern at index [i]. *)
Lemma run_recorded out i r :
  run pd cu uninit data regexes = Ok out -> regexes !! i = Some r ->
  ∃ p : Series bool,
    results_df out !! key_pd i = Some (CSeries p) ∧
    results_df out !! key_cu i = Some (CArray (to_numpy (cu_after cu data r p))) ∧
    do_pandas_and_cudf_match out !! i = Some (equals p (cu_after cu data r p)) ∧
    index p = index (pd_series data) ∧
    (∀ f, pd r = Returns f -> p = prod_map id f <$> pd_series data).
Proof.
  unfold run. intros Hrun Hi.
  destruct (for_each pd cu uninit data 0 regexes (initial uninit data regexes))
    as [st|e] eqn:Hloop; [|discriminate]. simpl in Hrun. injection Hrun as <-.
  apply for_each_recorded in Hloop as (Hrec & _); [|apply initial_shaped|].
  2:{ simpl. by rewrite length_np_empty. }
  destruct (Hrec i r Hi) as (p & H1 & H2 & H3 & H4 & H5). simpl in *.
  exists p. repeat split; try done.
  rewrite list_lookup_fmap, H3. simpl. by rewrite flag_of_b2z.
Qed.

Lemma run_email out :
  run pd cu uninit data regexes = Ok out ->
  results_df out !! "email" = Some (CList (test_data_to_show data)).
Proof.
  unfold run. intros Hrun.
  destruct (for_each pd cu uninit data 0 regexes (initial uninit data regexes))
    as [st|e] eqn:Hloop; [|discriminate]. simpl in Hrun. injection Hrun as <-.
  apply for_each_recorded in Hloop as (_ & Hkeys & _); [|apply initial_shaped|].
  2:{ simpl. by rewrite length_np_empty. }
  simpl. rewrite Hkeys; [apply lookup_singleton_eq|].
  intros k _. split; intros H; symmetry in H;
    [by apply key_pd_email in H | by apply key_cu_email in H].
Qed.

(** *** The comparison *)

#[local] Instance Matched_inj : Inj (=) (=) Matched.
Proof. intros b1 b2 H. by injection H. Qed.

Lemma length_cu_after_cells rgx p :
  index p = index (pd_series data) ->
  length (array_cells (to_numpy (cu_after cu data rgx p))) = size p.
Proof.
  intros Hp. unfold cu_after. destruct (cu rgx) as [e|g]; simpl.
  - rewrite length_fmap, values_mk_Series. apply length_replicate.
  - rewrite length_fmap, size_values. symmetry. apply index_size.
    by rewrite index_str_map.
Qed.

(** [equals] holds exactly when the two columns agree row by row; a
    float column never agrees with a boolean one that has a row. *)
Lemma equals_iff_cells rgx p :
  index p = index (pd_series data) -> (0 < size p)%nat ->
  equals p (cu_after cu data rgx p) = true ↔
  column_cells (CSeries p) = array_cells (to_numpy (cu_after cu data rgx p)).
Proof.
  intros Hp Hn. unfold cu_after. destruct (cu rgx) as [e|g]; simpl.
  - split; [discriminate|]. intros H. exfalso.
    rewrite values_mk_Series in H.
    destruct p as [|[i b] p]; [simpl in Hn; lia|]. simpl in Hn.
    discriminate H.
  - rewrite index_str_map. unfold cu_series. rewrite Hp.
    rewrite bool_decide_eq_true_2 by reflexivity. simpl.
    rewrite bool_decide_eq_true. split; [by intros ->|].
    intros H. by apply (inj (fmap Matched)) in H.
Qed.

(** Every column of the table keeps one row per retained string. *)
Lemma for_each_rows rgxs : ∀ ii st st',
  shaped data st ->
  map_Forall (fun _ col => length (column_cells col) = size (pd_series data))
             (results_by_data_point_dict st) ->
  for_each pd cu uninit data ii rgxs st = Ok st' ->
  map_Forall (fun _ col => length (column_cells col) = size (pd_series data))
             (results_by_data_point_dict st').
Proof.
  induction rgxs as [|r rest IH]; intros ii st st' Hsh Hall Hrun; simpl in *.
  - by injection Hrun as <-.
  - destruct (pd_after pd data r (pd_matches st)) as [p|] eqn:Hp.
    2:{ by rewrite (loop_body_unbound _ _ _ Hp) in Hrun. }
    rewrite (loop_body_bound _ _ _ _ Hp) in Hrun. simpl in Hrun.
    pose proof (pd_after_shaped _ _ _ Hsh Hp) as Hidx.
    apply (IH (S ii) _ st' (after_body_shaped ii r st p Hidx)); [|exact Hrun].
    simpl. apply map_Forall_insert_2.
    { cbn [column_cells]. rewrite (length_cu_after_cells r p Hidx).
      by apply index_size. }
    apply map_Forall_insert_2; [|exact Hall].
    simpl. rewrite length_fmap, size_values. by apply index_size.
Qed.

Lemma run_rows out :
  length (test_data_to_show data) = size (pd_series data) ->
  run pd cu uninit data regexes = Ok out ->
  ∀ key col, results_df out !! key = Some col ->
             length (column_cells col) = size (pd_series data).
Proof.
  unfold run. intros Hshow Hrun.
  destruct (for_each pd cu uninit data 0 regexes (initial uninit data regexes))
    as [st|e] eqn:Hloop; [|discriminate]. simpl in Hrun. injection Hrun as <-.
  apply for_each_rows in Hloop; [exact Hloop|apply initial_shaped|].
  simpl. apply map_Forall_singleton. simpl. by rewrite length_fmap.
Qed.

End LoopFacts.

(* ===================================================================== *)
(** * Part 6: the notebook's data and its six patterns                    *)
(* ===================================================================== *)

Lemma candidate_lookup (i : nat) :
  (i < 6)%nat -> candidate_regexes !! i = Some (candidate i).
Proof.
  intros Hi. do 6 (destruct i as [|i]; [reflexivity|]). lia.
Qed.

Lemma candidates_cons : candidate_regexes = candidate 0 :: tail candidate_regexes.
Proof. reflexivity. Qed.

Lemma size_pd_series : size (pd_series test_data_list) = 12%nat.
Proof. reflexivity. Qed.

Lemma values_pd_series : values (pd_series test_data_list) = retained.
Proof. reflexivity. Qed.

Lemma length_retained : length retained = 12%nat.
Proof. reflexivity. Qed.

(** The matcher of part 1 on the notebook's data: every candidate matches
    every retained string but the last, whose host part has an
    underscore. *)
Lemma candidates_on_retained (i : nat) :
  (i < 6)%nat ->
  Re.re_match (candidate i) <$> retained
  = replicate 11 (Some true) ++ [Some false].
Proof.
  intros Hi.
  assert (i = 0 ∨ i = 1 ∨ i = 2 ∨ i = 3 ∨ i = 4 ∨ i = 5)%nat
    as [-> | [-> | [-> | [-> | [-> | ->]]]]] by lia; vm_compute; reflexivity.
Qed.

(** It compiles all six candidates: as a first engine it never raises. *)
Lemma re_engine_returns (i : nat) :
  (i < 6)%nat -> ∃ f, re_engine (candidate i) = Returns f.
Proof.
  intros Hi. unfold re_engine.
  assert (∃ r, Re.compile (candidate i) = Re.Parsed r) as [r ->]; [|by eexists].
  assert (i = 0 ∨ i = 1 ∨ i = 2 ∨ i = 3 ∨ i = 4 ∨ i = 5)%nat
    as [-> | [-> | [-> | [-> | [-> | ->]]]]] by lia; eexists; vm_compute; reflexivity.
Qed.

(** Failures of the second engine stay local when the first engine
    returns on every pattern: what is recorded for pattern [j] depends on
    the second engine through its outcome on pattern [j] alone. *)
Lemma second_engine_failure_isolated (pd cu cu' : engine) (uninit : nat -> Z)
    (out out' : output) (j : nat) :
  (∀ i, (i < 6)%nat -> ∃ f, pd (candidate i) = Returns f) ->
  (j < 6)%nat -> cu (candidate j) = cu' (candidate j) ->
  run pd cu uninit test_data_list candidate_regexes = Ok out ->
  run pd cu' uninit test_data_list candidate_regexes = Ok out' ->
  results_df out !! key_pd j = results_df out' !! key_pd j ∧
  results_df out !! key_cu j = results_df out' !! key_cu j ∧
  do_pandas_and_cudf_match out !! j = do_pandas_and_cudf_match out' !! j.
Proof.
  intros Hpd Hj Hcu Hrun Hrun'. destruct (Hpd j Hj) as [f Hf].
  destruct (run_recorded pd cu uninit test_data_list candidate_regexes out j
              (candidate j) Hrun (candidate_lookup j Hj))
    as (p & Hp & Hc & Hflag & _ & Hfresh).
  destruct (run_recorded pd cu' uninit test_data_list candidate_regexes out' j
              (candidate j) Hrun' (candidate_lookup j Hj))
    as (p' & Hp' & Hc' & Hflag' & _ & Hfresh').
  rewrite (Hfresh f Hf) in *. rewrite (Hfresh' f Hf) in *.
  rewrite Hp, Hp', Hc, Hc', Hflag, Hflag'. unfold cu_after. by rewrite Hcu.
Qed.

(** C4, as the code has it.  When the first engine has returned on the
    first pattern, the cell runs to its end, and for every pattern on
    which the second engine raises, the second-engine column holds the
    value -1 in each of the 12 rows; -1 is the image of no boolean, and
    the agreement flag of that pattern is false. *)
Theorem C4_sentinel_rows (pd cu : engine) (uninit : nat -> Z)
    (f : string -> bool) (i : nat) (msg : string) :
  pd (candidate 0) = Returns f -> (i < 6)%nat -> cu (candidate i) = Raises msg ->
  ∃ out, run pd cu uninit test_data_list candidate_regexes = Ok out ∧
         results_df out !! key_cu i
           = Some (CArray (AFloat (replicate 12 err_match_value))) ∧
         (∀ b : bool, Z.b2z b ≠ err_match_value ∧ Matched b ≠ Number err_match_value) ∧
         do_pandas_and_cudf_match out !! i = Some false.
Proof.
  intros Hpd Hi Hcu.
  destruct (run_completes pd cu uninit test_data_list candidate_regexes
              _ _ f candidates_cons Hpd) as [out Hrun].
  exists out. split; [exact Hrun|].
  destruct (run_recorded pd cu uninit test_data_list candidate_regexes out i
              (candidate i) Hrun (candidate_lookup i Hi))
    as (p & _ & Hc & Hflag & Hidx & _).
  unfold cu_after in Hc, Hflag. rewrite Hcu in Hc, Hflag. simpl in Hc, Hflag.
  rewrite values_mk_Series in Hc.
  rewrite (index_size _ _ Hidx), size_pd_series in Hc.
  repeat split; try done. by destruct b.
Qed.

Lemma C4_witness :
  ∃ out, run re_engine raising zeroed test_data_list candidate_regexes = Ok out ∧
         results_df out !! key_cu 3
           = Some (CArray (AFloat (replicate 12 err_match_value))) ∧
         do_pandas_and_cudf_match out !! 3%nat = Some false.
Proof.
  destruct re_engine_candidate_0 as [f Hpd].
  destruct (C4_sentinel_rows re_engine raising zeroed f 3 "error" Hpd
              ltac:(lia) eq_refl) as (out & H1 & H2 & _ & H3).
  exists out. by repeat split.
Defined.

(** C4 as stated fails: when both engines raise on the first pattern the
    cell stops, and no sentinel column and no flag is recorded for it. *)
Lemma C4_counterexample :
  raising (candidate 0) = Raises "error" ∧
  ¬ ∃ out, run raising raising zeroed test_data_list candidate_regexes = Ok out ∧
           results_df out !! key_cu 0
             = Some (CArray (AFloat (replicate 12 err_match_value))) ∧
           do_pandas_and_cudf_match out !! 0%nat = Some false.
Proof.
  split; [reflexivity|]. intros (out & Hrun & _).
  rewrite (run_stops raising raising zeroed test_data_list candidate_regexes
             _ _ "error" candidates_cons eq_refl) in Hrun.
  discriminate Hrun.
Qed.

(** The flag and the two columns recorded next to it.  In a run that
    reaches its end, the flag of pattern [i] is true exactly when the two
    recorded columns of that pattern hold the same entry for every
    retained string.  The first-engine column holds the first engine's
    results when it returned on the pattern, and a left-over column
    otherwise; the second-engine column holds the second engine's
    results, or -1 in every row when it raised, and then the flag is
    false. *)
Theorem recorded_flag_iff_columns (pd cu : engine) (uninit : nat -> Z)
    (out : output) (i : nat) :
  run pd cu uninit test_data_list candidate_regexes = Ok out -> (i < 6)%nat ->
  ∃ (p : Series bool) (a : ndarray),
    results_df out !! key_pd i = Some (CSeries p) ∧
    results_df out !! key_cu i = Some (CArray a) ∧
    (do_pandas_and_cudf_match out !! i = Some true ↔
       ∀ k s, retained !! k = Some s ->
              column_cells (CSeries p) !! k = column_cells (CArray a) !! k) ∧
    is_Some (do_pandas_and_cudf_match out !! i) ∧
    (∀ f, pd (candidate i) = Returns f -> values p = f <$> retained) ∧
    (∀ g, cu (candidate i) = Returns g -> a = ABool (g <$> retained)) ∧
    (∀ msg, cu (candidate i) = Raises msg ->
            a = AFloat (replicate 12 err_match_value) ∧
            do_pandas_and_cudf_match out !! i = Some false).
Proof.
  intros Hrun Hi.
  destruct (run_recorded pd cu uninit test_data_list candidate_regexes out i
              (candidate i) Hrun (candidate_lookup i Hi))
    as (p & Hp & Hc & Hflag & Hidx & Hfresh).
  pose proof (index_size _ _ Hidx) as Hsz. rewrite size_pd_series in Hsz.
  pose proof (equals_iff_cells cu test_data_list (candidate i) p Hidx
                ltac:(lia)) as Heq.
  pose proof (length_cu_after_cells cu test_data_list (candidate i) p Hidx) as Hlen.
  rewrite Hsz in Hlen.
  set (c := cu_after cu test_data_list (candidate i) p) in *.
  assert (Hlenp : length (column_cells (CSeries p)) = 12%nat).
  { simpl. by rewrite length_fmap, size_values. }
  assert (Hrows : column_cells (CSeries p) = array_cells (to_numpy c) ↔
                  ∀ k s, retained !! k = Some s ->
                         column_cells (CSeries p) !! k = array_cells (to_numpy c) !! k).
  { split; [by intros ->|]. intros H.
    apply (list_eq_same_length _ _ 12); [done..|].
    intros k x y Hk Hx Hy.
    destruct (lookup_lt_is_Some_2 retained k) as [s Hs];
      [by rewrite length_retained|].
    specialize (H k s Hs). rewrite Hx, Hy in H. by injection H. }
  exists p, (to_numpy c). split; [exact Hp|]. split; [exact Hc|].
  split; [|split; [|split; [|split]]].
  - rewrite Hflag. rewrite <- Hrows, <- Heq. split; [by intros [= ->]|by intros ->].
  - rewrite Hflag. by eexists.
  - intros f Hf. rewrite (Hfresh f Hf), values_str_map. reflexivity.
  - intros g Hg. subst c. unfold cu_after. rewrite Hg. unfold to_numpy.
    rewrite values_str_map. reflexivity.
  - intros msg Hm. subst c. unfold cu_after in *. rewrite Hm in *.
    unfold to_numpy. rewrite values_mk_Series, Hsz. by rewrite Hflag.
Qed.

Lemma recorded_flag_iff_columns_witness :
  ∃ out, run re_engine raising zeroed test_data_list candidate_regexes = Ok out ∧
         (2 < 6)%nat ∧
         ∃ (p : Series bool) (a : ndarray),
           results_df out !! key_pd 2 = Some (CSeries p) ∧
           results_df out !! key_cu 2 = Some (CArray a) ∧
           (do_pandas_and_cudf_match out !! 2%nat = Some true ↔
              ∀ k s, retained !! k = Some s ->
                     column_cells (CSeries p) !! k = column_cells (CArray a) !! k).
Proof.
  destruct re_engine_candidate_0 as [f Hpd].
  destruct (run_completes re_engine raising zeroed test_data_list candidate_regexes
              _ _ f candidates_cons Hpd) as [out H].
  exists out. split; [exact H|]. split; [lia|].
  destruct (recorded_flag_iff_columns re_engine raising zeroed out 2 H ltac:(lia))
    as (p & a & H1 & H2 & H3 & _).
  by exists p, a.
Defined.

(** C8. Of the 13 literal entries exactly one is [np.nan].  The series
    handed to the engines hold the 12 other entries under their original
    labels, and the display list holds the same 12 strings.  In a run that
    reaches its end, every column of the table has 12 rows, and each
    pattern has its first-engine and its second-engine column. *)
Theorem C8_missing_value_excluded (pd cu : engine) (uninit : nat -> Z)
    (out : output) :
  run pd cu uninit test_data_list candidate_regexes = Ok out ->
  length test_data_list = 13%nat ∧
  (∀ i, test_data_list !! i = Some NaN ↔ i = 1%nat) ∧
  (∀ i s, (i, s) ∈ pd_series test_data_list ↔ test_data_list !! i = Some (Str s)) ∧
  cu_series test_data_list = pd_series test_data_list ∧
  size (pd_series test_data_list) = 12%nat ∧
  test_data_to_show test_data_list = Str <$> retained ∧
  length (test_data_to_show test_data_list) = 12%nat ∧
  results_df out !! "email" = Some (CList (Str <$> retained)) ∧
  (∀ key col, results_df out !! key = Some col -> length (column_cells col) = 12%nat) ∧
  (∀ i, (i < 6)%nat ->
        ∃ (p : Series bool) (a : ndarray),
          results_df out !! key_pd i = Some (CSeries p) ∧ size p = 12%nat ∧
          results_df out !! key_cu i = Some (CArray a) ∧
          length (array_cells a) = 12%nat).
Proof.
  intros Hrun.
  split; [reflexivity|]. split.
  { intros i. do 13 (destruct i as [|i]; [by split|]). by split. }
  split.
  { intros i s. split.
    - intros H. vm_compute in H.
      repeat (apply elem_of_cons in H as [[= -> ->]|H]; [reflexivity|]).
      by apply elem_of_nil in H.
    - do 13 (destruct i as [|i];
             [intros [= <-]; vm_compute; set_solver|]).
      intros H. discriminate H. }
  split; [reflexivity|]. split; [reflexivity|]. split; [reflexivity|].
  split; [reflexivity|]. split.
  { by rewrite (run_email _ _ _ _ _ _ Hrun). }
  split.
  { intros key col Hk.
    by rewrite (run_rows pd cu uninit test_data_list candidate_regexes out
                  eq_refl Hrun key col Hk). }
  intros i Hi.
  destruct (run_recorded pd cu uninit test_data_list candidate_regexes out i
              (candidate i) Hrun (candidate_lookup i Hi))
    as (p & Hp & Hc & _ & Hidx & _).
  pose proof (index_size _ _ Hidx) as Hsz. rewrite size_pd_series in Hsz.
  exists p, (to_numpy (cu_after cu test_data_list (candidate i) p)).
  repeat split; try done.
  by rewrite (length_cu_after_cells cu test_data_list (candidate i) p Hidx).
Qed.

Lemma C8_witness :
  ∃ out, run re_engine re_engine zeroed test_data_list candidate_regexes = Ok out ∧
         size (pd_series test_data_list) = 12%nat ∧
         ∀ key col, results_df out !! key = Some col ->
                    length (column_cells col) = 12%nat.
Proof.
  destruct re_engine_candidate_0 as [f Hpd].
  destruct (run_completes re_engine re_engine zeroed test_data_list candidate_regexes
              _ _ f candidates_cons Hpd) as [out H].
  exists out. split; [exact H|].
  destruct (C8_missing_value_excluded re_engine re_engine zeroed out H)
    as (_ & _ & _ & _ & H1 & _ & _ & _ & H2 & _).
  by split.
Defined.

(* ===================================================================== *)
(** * Part 7: failures of the engines                                     *)
(* ===================================================================== *)

(** C6. When the first engine raises on a pattern, the body prints one
    line and leaves [pd_matches] alone.  If the variable is bound, its
    old value is what gets recorded under this pattern's key and what the
    second-engine column is compared with; if it is not bound, reading it
    raises [NameError]. *)
Theorem C6_first_engine_failure (pd cu : engine) (uninit : nat -> Z)
    (data : list pyval) (ii : nat) (rgx : string) (st : state) (msg : string) :
  pd rgx = Raises msg ->
  match pd_matches st with
  | None =>
      loop_body pd cu uninit data ii rgx st = Raise (NameError "pd_matches")
  | Some left_over =>
      ∃ st' c cu_lines,
        loop_body pd cu uninit data ii rgx st = Ok st' ∧
        pd_matches st' = Some left_over ∧
        cu_matches st' = Some c ∧
        results_by_data_point_dict st' !! key_pd ii = Some (CSeries left_over) ∧
        are_regex_results_equal st'
          = <[ii := Z.b2z (equals left_over c)]> (are_regex_results_equal st) ∧
        stdout st' = stdout st ++ "Error running pandas series." :: cu_lines
  end.
Proof.
  intros Hpd. destruct (pd_matches st) as [p|] eqn:Hst.
  - assert (Hp : pd_after pd data rgx (pd_matches st) = Some p).
    { unfold pd_after. by rewrite Hpd. }
    rewrite (loop_body_bound pd cu uninit data ii rgx st p Hp).
    eexists _, _, (cu_log cu rgx). split; [reflexivity|]. simpl.
    repeat split.
    + rewrite lookup_insert_ne by (intros H; by apply (key_pd_cu ii ii)).
      by rewrite lookup_insert_eq.
    + unfold pd_log. by rewrite Hpd.
  - apply loop_body_unbound. unfold pd_after. by rewrite Hpd.
Qed.

Lemma C6_witness :
  raising (candidate 1) = Raises "error" ∧
  loop_body raising re_engine zeroed test_data_list 1 (candidate 1)
    (initial zeroed test_data_list candidate_regexes)
  = Raise (NameError "pd_matches").
Proof.
  split; [reflexivity|].
  exact (C6_first_engine_failure raising re_engine zeroed test_data_list 1
           (candidate 1) (initial zeroed test_data_list candidate_regexes)
           "error" eq_refl).
Defined.

(** C10. Let the second engine raise on a pattern.  If the first engine
    has returned on it, or [pd_matches] is left over from an earlier
    pattern, the handler builds the column of -1, one per row of
    [pd_matches], and the body goes on.  If neither holds, the handler
    reads the unbound [pd_matches] and the body stops with [NameError]; in
    particular the cell stops there when both engines raise on its first
    pattern. *)
Theorem C10_second_handler_precondition (pd cu : engine) (uninit : nat -> Z)
    (data : list pyval) (ii : nat) (rgx : string) (st : state) (msg : string) :
  cu rgx = Raises msg ->
  (((∃ f, pd rgx = Returns f) ∨ is_Some (pd_matches st)) ->
   ∃ st' p,
     loop_body pd cu uninit data ii rgx st = Ok st' ∧
     pd_matches st' = Some p ∧
     cu_matches st' = Some (SFloat (mk_Series (replicate (size p) err_match_value))) ∧
     results_by_data_point_dict st' !! key_cu ii
       = Some (CArray (AFloat (replicate (size p) err_match_value)))) ∧
  ((∃ m, pd rgx = Raises m) -> pd_matches st = None ->
   loop_body pd cu uninit data ii rgx st = Raise (NameError "pd_matches")) ∧
  ((∃ m, pd rgx = Raises m) -> ∀ rest,
   run pd cu uninit data (rgx :: rest) = Raise (NameError "pd_matches")).
Proof.
  intros Hcu. split; [|split].
  - intros Hpre.
    assert (∃ p, pd_after pd data rgx (pd_matches st) = Some p) as [p Hp].
    { unfold pd_after. destruct Hpre as [[f ->]|[p Hp]]; [by eexists|].
      destruct (pd rgx); rewrite ?Hp; by eexists. }
    rewrite (loop_body_bound pd cu uninit data ii rgx st p Hp).
    eexists _, p. split; [reflexivity|]. simpl.
    unfold cu_after. rewrite Hcu. repeat split.
    rewrite lookup_insert_eq. unfold to_numpy. by rewrite values_mk_Series.
  - intros [m Hm] Hst. apply loop_body_unbound. unfold pd_after. by rewrite Hm.
  - intros [m Hm] rest. by apply (run_stops pd cu uninit data _ rgx rest m).
Qed.

Lemma C10_witness :
  raising (candidate 0) = Raises "error" ∧
  run raising raising zeroed test_data_list candidate_regexes
  = Raise (NameError "pd_matches").
Proof.
  split; [reflexivity|].
  exact (proj2 (proj2 (C10_second_handler_precondition raising raising zeroed
                         test_data_list 0 (candidate 0)
                         (initial zeroed test_data_list candidate_regexes)
                         "error" eq_refl))
           (ex_intro _ "error" eq_refl) (tail candidate_regexes)).
Defined.

(** C7 at a failing input.  With a first engine that raises on the first
    candidate only, the cell stops at that candidate and records nothing
    for the second one; with the same engine not raising there, the
    second candidate gets its two columns and a true flag. *)
Lemma C7_failure_not_isolated :
  raising_on_first (candidate 0) = Raises "error" ∧
  (∀ i, (1 ≤ i < 6)%nat -> raising_on_first (candidate i) = re_engine (candidate i)) ∧
  run raising_on_first re_engine zeroed test_data_list candidate_regexes
    = Raise (NameError "pd_matches") ∧
  ∃ out p a,
    run re_engine re_engine zeroed test_data_list candidate_regexes = Ok out ∧
    results_df out !! key_pd 1 = Some (CSeries p) ∧
    results_df out !! key_cu 1 = Some (CArray a) ∧
    do_pandas_and_cudf_match out !! 1%nat = Some true.
Proof.
  assert (H0 : raising_on_first (candidate 0) = Raises "error").
  { unfold raising_on_first. by rewrite decide_True. }
  split; [exact H0|]. split.
  { intros i Hi. unfold raising_on_first. rewrite decide_False; [reflexivity|].
    assert (i = 1 ∨ i = 2 ∨ i = 3 ∨ i = 4 ∨ i = 5)%nat
      as [-> | [-> | [-> | [-> | ->]]]] by lia; discriminate. }
  split.
  { exact (run_stops raising_on_first re_engine zeroed test_data_list
             candidate_regexes _ _ "error" candidates_cons H0). }
  destruct re_engine_candidate_0 as [f0 Hf0].
  destruct re_engine_candidate_1 as [f1 Hf1].
  destruct (run_completes re_engine re_engine zeroed test_data_list candidate_regexes
              _ _ f0 candidates_cons Hf0) as [out Hrun].
  destruct (run_recorded re_engine re_engine zeroed test_data_list candidate_regexes
              out 1 (candidate 1) Hrun eq_refl) as (p & Hp & Hc & Hflag & _ & Hfresh).
  exists out, p, (to_numpy (cu_after re_engine test_data_list (candidate 1) p)).
  split; [exact Hrun|]. split; [exact Hp|]. split; [exact Hc|].
  rewrite Hflag. f_equal. unfold cu_after. rewrite Hf1, (Hfresh f1 Hf1).
  unfold equals. by rewrite !bool_decide_eq_true_2.
Qed.

(* ===================================================================== *)
(** * Part 8: the missing value and the other entries                     *)
(* ===================================================================== *)

Section MissingValue.

Context (pd cu : engine) (uninit : nat -> Z).

Lemma values_dropna_zip (l : list pyval) : ∀ labels : list nat,
  length labels = length l -> values (dropna (zip labels l)) = strings_of l.
Proof.
  unfold values, dropna, strings_of.
  induction l as [|v l IH]; intros [|i labels] Hlen; try done.
  simpl in Hlen. injection Hlen as Hlen. destruct v as [x|]; simpl.
  - f_equal. by apply IH.
  - by apply IH.
Qed.

Lemma dropna_zip_strings (l : list pyval) : ∀ labels : list nat,
  Forall (fun v => v ≠ NaN) l -> dropna (zip labels l) = zip labels (strings_of l).
Proof.
  unfold dropna, strings_of.
  induction l as [|v l IH]; intros [|i labels] Hl; try done.
  apply Forall_cons in Hl as [Hv Hl]. destruct v as [x|]; [|done]. simpl.
  f_equal. by apply IH.
Qed.

Lemma without_nan_Str x l : without_nan (Str x :: l) = Str x :: without_nan l.
Proof. unfold without_nan. by rewrite filter_cons_True. Qed.

Lemma without_nan_NaN l : without_nan (NaN :: l) = without_nan l.
Proof. unfold without_nan. rewrite filter_cons_False; [done|]. intros H. by apply H. Qed.

Lemma strings_of_without_nan l : strings_of (without_nan l) = strings_of l.
Proof.
  induction l as [|[x|] l IH]; [done| |].
  - rewrite without_nan_Str. change (x :: strings_of (without_nan l) = x :: strings_of l).
    by rewrite IH.
  - rewrite without_nan_NaN. exact IH.
Qed.

Lemma length_strings_of_without_nan l :
  length (without_nan l) = length (strings_of l).
Proof.
  induction l as [|[x|] l IH]; [done| |].
  - rewrite without_nan_Str. change (S (length (without_nan l)) = S (length (strings_of l))).
    by rewrite IH.
  - rewrite without_nan_NaN. exact IH.
Qed.

Lemma without_nan_Forall l : Forall (fun v => v ≠ NaN) (without_nan l).
Proof.
  induction l as [|[x|] l IH]; [constructor| |].
  - rewrite without_nan_Str. by constructor.
  - by rewrite without_nan_NaN.
Qed.

(** Dropping the missing value first and labelling afterwards gives the
    rows of [pd_series] under fresh labels. *)
Lemma pd_series_without_nan data :
  pd_series (without_nan data) = reset_index (pd_series data).
Proof.
  unfold pd_series, pd_raw_series, reset_index. unfold mk_Series at 1 3.
  rewrite dropna_zip_strings by apply without_nan_Forall.
  rewrite strings_of_without_nan, length_strings_of_without_nan.
  rewrite values_dropna_zip by (by rewrite length_seq). reflexivity.
Qed.

Lemma test_data_to_show_without_nan data :
  test_data_to_show (without_nan data) = test_data_to_show data.
Proof.
  unfold test_data_to_show, without_nan. induction data as [|[x|] l IH]; [done| |].
  - rewrite (filter_cons_True (fun v => v ≠ NaN)) by done.
    destruct (decide (py_str (Str x) ≠ "nan")) as [H|H].
    + rewrite !filter_cons_True by done. by rewrite IH.
    + rewrite !filter_cons_False by done. by rewrite IH.
  - rewrite (filter_cons_False (fun v => v ≠ NaN)) by (intros H; by apply H).
    rewrite filter_cons_False; [exact IH|]. intros H. by apply H.
Qed.

Lemma str_map_zip (f : string -> bool) (l : list string) : ∀ labels : list nat,
  prod_map id f <$> zip labels l = zip labels (f <$> l).
Proof.
  induction l as [|x l IH]; intros [|i labels]; try done. simpl. by rewrite IH.
Qed.

Lemma reset_index_str_map (f : string -> bool) (s : Series string) :
  reset_index (prod_map id f <$> s) = prod_map id f <$> reset_index s.
Proof.
  unfold reset_index. rewrite values_str_map. unfold mk_Series.
  by rewrite str_map_zip, length_fmap.
Qed.

Lemma values_reset_index {A} (s : Series A) : values (reset_index s) = values s.
Proof. apply values_mk_Series. Qed.

Lemma index_reset_index {A} (s : Series A) : index (reset_index s) = seq 0 (size s).
Proof. unfold reset_index. by rewrite index_mk_Series, size_values. Qed.

Lemma size_reset_index {A} (s : Series A) : size (reset_index s) = size s.
Proof.
  unfold size. rewrite <- (length_fmap snd (reset_index s)).
  fold (values (reset_index s)). by rewrite values_reset_index, size_values.
Qed.

Lemma reset_index_mk_Series {A} (l : list A) : reset_index (mk_Series l) = mk_Series l.
Proof. unfold reset_index. by rewrite values_mk_Series. Qed.

Lemma pd_after_reset data rgx before :
  pd_after pd (without_nan data) rgx (reset_index <$> before)
  = reset_index <$> pd_after pd data rgx before.
Proof.
  unfold pd_after. destruct (pd rgx) as [m|f]; [done|]. simpl.
  by rewrite pd_series_without_nan, reset_index_str_map.
Qed.

Lemma cu_after_reset data rgx p :
  cu_after cu (without_nan data) rgx (reset_index p)
  = reset_dseries (cu_after cu data rgx p).
Proof.
  unfold cu_after. destruct (cu rgx) as [m|g]; simpl.
  - by rewrite size_reset_index, reset_index_mk_Series.
  - unfold cu_series, cu_raw_series.
    change (dropna (mk_Series (without_nan data))) with (pd_series (without_nan data)).
    change (dropna (mk_Series data)) with (pd_series data).
    by rewrite pd_series_without_nan, reset_index_str_map.
Qed.

Lemma to_numpy_reset c : to_numpy (reset_dseries c) = to_numpy c.
Proof. destruct c; simpl; by rewrite values_reset_index. Qed.

(** [equals] sees the labels, but the two columns of one pattern carry the
    same ones, before and after the relabelling. *)
Lemma equals_reset data rgx p :
  index p = index (pd_series data) ->
  equals (reset_index p) (reset_dseries (cu_after cu data rgx p))
  = equals p (cu_after cu data rgx p).
Proof.
  intros Hp. unfold cu_after. destruct (cu rgx) as [m|g]; simpl; [done|].
  rewrite !values_reset_index, !index_reset_index.
  rewrite index_str_map. unfold cu_series, cu_raw_series.
  change (dropna (mk_Series data)) with (pd_series data). rewrite Hp.
  assert (Hsz : size p = size (prod_map id g <$> pd_series data)).
  { apply index_size. by rewrite index_str_map. }
  rewrite Hsz.
  rewrite (bool_decide_eq_true_2 (seq _ _ = _)) by reflexivity.
  by rewrite (bool_decide_eq_true_2 (index _ = _)) by reflexivity.
Qed.

Lemma after_body_reset data ii rgx p st :
  index p = index (pd_series data) ->
  after_body pd cu (without_nan data) ii rgx (reset_index p) (reset_state st)
  = reset_state (after_body pd cu data ii rgx p st).
Proof.
  intros Hp. unfold after_body, reset_state. simpl.
  rewrite !fmap_insert. simpl.
  by rewrite cu_after_reset, to_numpy_reset, equals_reset.
Qed.

Lemma for_each_reset data rgxs : ∀ ii st,
  shaped data st ->
  for_each pd cu uninit (without_nan data) ii rgxs (reset_state st)
  = exc_map reset_state (for_each pd cu uninit data ii rgxs st).
Proof.
  induction rgxs as [|r rest IH]; intros ii st Hsh; simpl; [done|].
  destruct (pd_after pd data r (pd_matches st)) as [p|] eqn:Hp.
  - pose proof (pd_after_shaped pd data r st p Hsh Hp) as Hidx.
    rewrite (loop_body_bound pd cu uninit data ii r st p Hp).
    rewrite (loop_body_bound pd cu uninit (without_nan data) ii r (reset_state st)
               (reset_index p)).
    2:{ simpl. by rewrite pd_after_reset, Hp. }
    simpl. rewrite after_body_reset by done.
    apply IH. by apply after_body_shaped.
  - rewrite (loop_body_unbound pd cu uninit data ii r st Hp).
    rewrite (loop_body_unbound pd cu uninit (without_nan data) ii r (reset_state st)).
    2:{ simpl. by rewrite pd_after_reset, Hp. }
    done.
Qed.

(** The run on the list without the missing value is the run on the list
    with it, up to the labels. *)
Lemma run_without_nan data regexes :
  run pd cu uninit (without_nan data) regexes
  = exc_map reset_output (run pd cu uninit data regexes).
Proof.
  unfold run.
  assert (Hinit : initial uninit (without_nan data) regexes
                  = reset_state (initial uninit data regexes)).
  { unfold initial, reset_state. simpl.
    by rewrite test_data_to_show_without_nan, map_fmap_singleton. }
  rewrite Hinit, for_each_reset by apply initial_shaped.
  by destruct (for_each pd cu uninit data 0 regexes (initial uninit data regexes)).
Qed.

Lemma column_cells_reset col : column_cells (reset_column col) = column_cells col.
Proof. destruct col; simpl; [done| |done]. by rewrite values_reset_index. Qed.

End MissingValue.

(** C9. Run the cell on the literal list, and on the literal list with
    the missing value removed beforehand.  Either both runs stop with the
    same exception, or both reach their end with the same flags, the same
    printed lines and, under every key of the table, the same entries row
    by row. *)
Theorem C9_missing_value_noninterference (pd cu : engine) (uninit : nat -> Z) :
  without_nan test_data_list = Str <$> retained ∧
  match run pd cu uninit test_data_list candidate_regexes,
        run pd cu uninit (without_nan test_data_list) candidate_regexes with
  | Ok with_nan, Ok without =>
      do_pandas_and_cudf_match without = do_pandas_and_cudf_match with_nan ∧
      printed without = printed with_nan ∧
      ∀ key, column_cells <$> (results_df without !! key)
             = column_cells <$> (results_df with_nan !! key)
  | Raise e1, Raise e2 => e1 = e2
  | _, _ => False
  end.
Proof.
  split; [reflexivity|].
  rewrite run_without_nan.
  destruct (run pd cu uninit test_data_list candidate_regexes) as [out|e]; simpl;
    [|reflexivity].
  repeat split. intros key. rewrite lookup_fmap.
  destruct (results_df out !! key) as [col|]; simpl; [|done].
  by rewrite column_cells_reset.
Qed.

(* ===================================================================== *)
(** * Part 9: further properties of the cells, for any input              *)
(* ===================================================================== *)

Section LoopAnyInput.

Context (pd cu : engine) (uninit : nat -> Z) (data : list pyval).

(** Keys that the remaining iterations do not write keep their column. *)
Lemma for_each_frame rgxs : ∀ ii st st',
  for_each pd cu uninit data ii rgxs st = Ok st' ->
  ∀ key, (∀ k, (ii ≤ k)%nat -> key ≠ key_pd k ∧ key ≠ key_cu k) ->
         results_by_data_point_dict st' !! key = results_by_data_point_dict st !! key.
Proof.
  induction rgxs as [|r rest IH]; intros ii st st' Hrun key Hkey; simpl in Hrun.
  - by injection Hrun as <-.
  - destruct (pd_after pd data r (pd_matches st)) as [p|] eqn:Hp.
    2:{ by rewrite (loop_body_unbound pd cu uninit data ii r st Hp) in Hrun. }
    rewrite (loop_body_bound pd cu uninit data ii r st p Hp) in Hrun. simpl in Hrun.
    rewrite (IH _ _ _ Hrun key) by (intros k Hk; apply Hkey; lia).
    destruct (Hkey ii (Nat.le_refl _)) as [H1 H2]. simpl.
    by rewrite !lookup_insert_ne.
Qed.

(** The keys of the table after the loop: those it had, and two per
    pattern. *)
Lemma for_each_keys rgxs : ∀ ii st st',
  for_each pd cu uninit data ii rgxs st = Ok st' ->
  ∀ key, is_Some (results_by_data_point_dict st' !! key) ↔
         is_Some (results_by_data_point_dict st !! key) ∨
         ∃ k, (k < length rgxs)%nat ∧ (key = key_pd (ii + k) ∨ key = key_cu (ii + k)).
Proof.
  induction rgxs as [|r rest IH]; intros ii st st' Hrun key; simpl in Hrun.
  - injection Hrun as <-. split; [by left|]. intros [H|(k & Hk & _)]; [done|].
    simpl in Hk. lia.
  - destruct (pd_after pd data r (pd_matches st)) as [p|] eqn:Hp.
    2:{ by rewrite (loop_body_unbound pd cu uninit data ii r st Hp) in Hrun. }
    rewrite (loop_body_bound pd cu uninit data ii r st p Hp) in Hrun. simpl in Hrun.
    rewrite (IH _ _ _ Hrun key). simpl. rewrite !lookup_insert_is_Some. split.
    + intros [[<-|[_ [<-|[_ H]]]]|(k & Hk & Hkey)].
      * right. exists 0%nat. rewrite Nat.add_0_r. split; [lia|by right].
      * right. exists 0%nat. rewrite Nat.add_0_r. split; [lia|by left].
      * by left.
      * right. exists (S k). simpl. split; [lia|].
        rewrite Nat.add_succ_r. exact Hkey.
    + intros [H|([|k] & Hk & Hkey)].
      * left. destruct (decide (key_cu ii = key)) as [|Hne1]; [by left|].
        right. split; [done|].
        destruct (decide (key_pd ii = key)) as [|Hne2]; [by left|]. by right.
      * rewrite Nat.add_0_r in Hkey. left. destruct Hkey as [->| ->].
        -- right. split; [apply not_eq_sym, key_pd_cu|by left].
        -- by left.
      * right. exists k. simpl in Hk. split; [lia|].
        rewrite Nat.add_succ_r in Hkey. exact Hkey.
Qed.

(** The lines printed by the loop, pattern after pattern. *)
Lemma for_each_stdout rgxs : ∀ ii st st',
  for_each pd cu uninit data ii rgxs st = Ok st' ->
  stdout st' = stdout st ++ mjoin ((fun r => pd_log pd r ++ cu_log cu r) <$> rgxs).
Proof.
  induction rgxs as [|r rest IH]; intros ii st st' Hrun; simpl in Hrun.
  - injection Hrun as <-. simpl. by rewrite app_nil_r.
  - destruct (pd_after pd data r (pd_matches st)) as [p|] eqn:Hp.
    2:{ by rewrite (loop_body_unbound pd cu uninit data ii r st Hp) in Hrun. }
    rewrite (loop_body_bound pd cu uninit data ii r st p Hp) in Hrun. simpl in Hrun.
    rewrite (IH _ _ _ Hrun). simpl. by rewrite <- !app_assoc.
Qed.

(** A pattern on which the first engine raises gets, as its first-engine
    column, the column of the pattern before it. *)
Lemma for_each_left_over : ∀ i rgxs ii st st' r msg,
  for_each pd cu uninit data ii rgxs st = Ok st' ->
  rgxs !! S i = Some r -> pd r = Raises msg ->
  results_by_data_point_dict st' !! key_pd (ii + S i)
  = results_by_data_point_dict st' !! key_pd (ii + i) ∧
  is_Some (results_by_data_point_dict st' !! key_pd (ii + i)).
Proof.
  induction i as [|i IH]; intros [|r0 rgxs] ii st st' r msg Hrun Hr Hpd; try done.
  - destruct rgxs as [|r1 rest]; [done|]. simpl in Hr. injection Hr as ->.
    simpl in Hrun.
    destruct (pd_after pd data r0 (pd_matches st)) as [p|] eqn:Hp.
    2:{ by rewrite (loop_body_unbound pd cu uninit data ii r0 st Hp) in Hrun. }
    rewrite (loop_body_bound pd cu uninit data ii r0 st p Hp) in Hrun. simpl in Hrun.
    set (st1 := after_body pd cu data ii r0 p st) in *.
    assert (Hp1 : pd_after pd data r (pd_matches st1) = Some p).
    { unfold pd_after. by rewrite Hpd. }
    rewrite (loop_body_bound pd cu uninit data (S ii) r st1 p Hp1) in Hrun.
    simpl in Hrun.
    pose proof (for_each_frame _ _ _ _ Hrun) as Hframe. simpl in Hframe.
    rewrite Nat.add_0_r, Nat.add_1_r.
    rewrite (Hframe (key_pd (S ii))), (Hframe (key_pd ii)).
    + rewrite (lookup_insert_ne _ (key_cu (S ii))) by apply not_eq_sym, key_pd_cu.
      rewrite lookup_insert_eq.
      rewrite (lookup_insert_ne _ (key_cu (S ii))) by apply not_eq_sym, key_pd_cu.
      rewrite (lookup_insert_ne _ (key_pd (S ii)))
        by (intros H; apply key_pd_inj in H; lia).
      rewrite (lookup_insert_ne _ (key_cu ii)) by apply not_eq_sym, key_pd_cu.
      rewrite lookup_insert_eq. split; [done|by eexists].
    + intros k Hk. split; [intros H; apply key_pd_inj in H; lia|apply key_pd_cu].
    + intros k Hk. split; [intros H; apply key_pd_inj in H; lia|apply key_pd_cu].
  - simpl in Hr. simpl in Hrun.
    destruct (pd_after pd data r0 (pd_matches st)) as [p|] eqn:Hp.
    2:{ by rewrite (loop_body_unbound pd cu uninit data ii r0 st Hp) in Hrun. }
    rewrite (loop_body_bound pd cu uninit data ii r0 st p Hp) in Hrun. simpl in Hrun.
    replace (ii + S (S i))%nat with (S ii + S i)%nat by lia.
    replace (ii + S i)%nat with (S ii + i)%nat by lia.
    by apply (IH rgxs (S ii) _ st' r msg Hrun Hr Hpd).
Qed.

(** What [np.empty] found in memory does not reach the loop's results:
    every cell is written before it is read. *)
Lemma for_each_uninit (u1 u2 : nat -> Z) rgxs : ∀ ii st1 st2,
  pd_matches st1 = pd_matches st2 ->
  results_by_data_point_dict st1 = results_by_data_point_dict st2 ->
  stdout st1 = stdout st2 ->
  length (are_regex_results_equal st1) = length (are_regex_results_equal st2) ->
  (∀ j, (j < ii)%nat ->
        are_regex_results_equal st1 !! j = are_regex_results_equal st2 !! j) ->
  match for_each pd cu u1 data ii rgxs st1, for_each pd cu u2 data ii rgxs st2 with
  | Ok a, Ok b =>
      results_by_data_point_dict a = results_by_data_point_dict b ∧
      stdout a = stdout b ∧
      length (are_regex_results_equal a) = length (are_regex_results_equal b) ∧
      ∀ j, (j < ii + length rgxs)%nat ->
           are_regex_results_equal a !! j = are_regex_results_equal b !! j
  | Raise e1, Raise e2 => e1 = e2
  | _, _ => False
  end.
Proof.
  induction rgxs as [|r rest IH]; intros ii st1 st2 Hpd Hd Hout Hlen Harr; simpl.
  - repeat split; try done. intros j Hj. apply Harr. lia.
  - destruct (pd_after pd data r (pd_matches st1)) as [p|] eqn:Hp.
    + rewrite (loop_body_bound pd cu u1 data ii r st1 p Hp).
      rewrite Hpd in Hp. rewrite (loop_body_bound pd cu u2 data ii r st2 p Hp).
      simpl.
      specialize (IH (S ii) (after_body pd cu data ii r p st1)
                    (after_body pd cu data ii r p st2)).
      simpl in IH. rewrite !length_insert in IH.
      replace (ii + S (length rest))%nat with (S ii + length rest)%nat by lia.
      apply IH; try done; try congruence.
      intros j Hj. destruct (decide (j = ii)) as [->|Hne].
      * destruct (decide (ii < length (are_regex_results_equal st1))%nat) as [Hi|Hi].
        -- rewrite !list_lookup_insert_eq by lia. done.
        -- rewrite !list_insert_ge by lia.
           rewrite !lookup_ge_None_2 by lia. done.
      * rewrite !list_lookup_insert_ne by done. apply Harr. lia.
    + rewrite (loop_body_unbound pd cu u1 data ii r st1 Hp).
      rewrite Hpd in Hp. by rewrite (loop_body_unbound pd cu u2 data ii r st2 Hp).
Qed.

End LoopAnyInput.

(** ** The cell as a whole *)

(** The cell ends in one of two ways, decided by the first engine on the
    first pattern alone: it raises there and the cell stops with
    [NameError], or it returns and the cell reaches its end with one flag
    per pattern.  With no pattern at all the cell shows the display list
    and nothing else. *)
Theorem run_outcome (pd cu : engine) (uninit : nat -> Z) (data : list pyval)
    (regexes : list string) :
  match regexes with
  | [] =>
      run pd cu uninit data regexes
      = Ok (mk_output [] {[ "email" := CList (test_data_to_show data) ]} [])
  | r :: _ =>
      match pd r with
      | Raises _ =>
          run pd cu uninit data regexes = Raise (NameError "pd_matches")
      | Returns _ =>
          ∃ out, run pd cu uninit data regexes = Ok out ∧
                 length (do_pandas_and_cudf_match out) = length regexes
      end
  end.
Proof.
  destruct regexes as [|r rest] eqn:E; [reflexivity|]. rewrite <- E.
  destruct (pd r) as [msg|f] eqn:Hr.
  - by apply (run_stops pd cu uninit data regexes r rest msg).
  - destruct (run_completes pd cu uninit data regexes r rest f E Hr) as [out Hrun].
    exists out. split; [exact Hrun|].
    unfold run in Hrun.
    destruct (for_each pd cu uninit data 0 regexes (initial uninit data regexes))
      as [st|e] eqn:Hloop; [|discriminate]. simpl in Hrun. injection Hrun as <-.
    apply for_each_recorded in Hloop as (_ & _ & _ & Hl & _);
      [|apply initial_shaped|simpl; by rewrite length_np_empty].
    simpl. rewrite length_fmap, Hl. simpl. apply length_np_empty.
Qed.

(** The displayed results do not depend on what [np.empty] found in
    memory. *)
Theorem run_ignores_uninitialised_memory (pd cu : engine) (u1 u2 : nat -> Z)
    (data : list pyval) (regexes : list string) :
  run pd cu u1 data regexes = run pd cu u2 data regexes.
Proof.
  unfold run.
  pose proof (for_each_uninit pd cu data u1 u2 regexes 0
                (initial u1 data regexes) (initial u2 data regexes)
                eq_refl eq_refl eq_refl) as H.
  simpl in H. rewrite !length_np_empty in H.
  specialize (H eq_refl ltac:(intros j Hj; lia)).
  destruct (for_each pd cu u1 data 0 regexes (initial u1 data regexes))
    as [a|e1] eqn:Ha;
    destruct (for_each pd cu u2 data 0 regexes (initial u2 data regexes))
      as [b|e2] eqn:Hb; try done; [|by subst].
  destruct H as (Hd & Hout & Hlen & Harr). simpl. unfold finalize.
  apply for_each_recorded in Ha as (_ & _ & _ & Hla & _);
    [|apply initial_shaped|simpl; by rewrite length_np_empty].
  simpl in Hla. rewrite length_np_empty in Hla.
  assert (are_regex_results_equal a = are_regex_results_equal b) as ->.
  { apply list_eq. intros j. destruct (decide (j < length regexes)%nat) as [Hj|Hj].
    - by apply Harr.
    - rewrite !lookup_ge_None_2 by lia. done. }
  by rewrite Hd, Hout.
Qed.

(** ** The second cell for any list *)

Lemma size_pd_series_strings data : size (pd_series data) = length (strings_of data).
Proof.
  rewrite <- size_values. unfold pd_series, pd_raw_series, mk_Series.
  by rewrite values_dropna_zip by (by rewrite length_seq).
Qed.

Lemma test_data_to_show_cons v data :
  test_data_to_show (v :: data)
  = if decide (py_str v ≠ "nan") then v :: test_data_to_show data
    else test_data_to_show data.
Proof.
  unfold test_data_to_show. destruct (decide (py_str v ≠ "nan")).
  - by rewrite filter_cons_True.
  - by rewrite filter_cons_False.
Qed.

(** The two ways the second cell removes the missing value differ on one
    input: [dropna] keeps a string that reads "nan", the display filter
    [str(emailadr) != 'nan'] drops it.  The display list is never longer
    than the series, as long exactly when no entry is the string "nan",
    and then it holds the very strings of the series. *)
Theorem display_list_and_series (data : list pyval) :
  (length (test_data_to_show data) ≤ size (pd_series data))%nat ∧
  (length (test_data_to_show data) = size (pd_series data) ↔ Str "nan" ∉ data) ∧
  (Str "nan" ∉ data -> test_data_to_show data = Str <$> values (pd_series data)).
Proof.
  assert (Hv : values (pd_series data) = strings_of data).
  { unfold pd_series, pd_raw_series, mk_Series.
    by rewrite values_dropna_zip by (by rewrite length_seq). }
  rewrite size_pd_series_strings, Hv. clear Hv.
  induction data as [|v data (IH1 & IH2 & IH3)]; [repeat split; set_solver|].
  rewrite test_data_to_show_cons. destruct v as [x|].
  - change (strings_of (Str x :: data)) with (x :: strings_of data).
    destruct (decide (py_str (Str x) ≠ "nan")) as [Hx|Hx]; simpl in *.
    + split; [lia|]. split.
      * rewrite not_elem_of_cons. split.
        -- intros H. split; [congruence|]. apply IH2. lia.
        -- intros [_ H]. f_equal. by apply IH2.
      * intros H. apply not_elem_of_cons in H as [_ H]. f_equal. by apply IH3.
    + assert (x = "nan") as -> by (by destruct (decide (x = "nan")); [|exfalso; auto]).
      split; [lia|]. split.
      * split; [lia|]. intros H. exfalso. apply H. by left.
      * intros H. exfalso. apply H. by left.
  - change (strings_of (NaN :: data)) with (strings_of data).
    rewrite decide_False by (intros H; by apply H). split; [exact IH1|]. split.
    + rewrite not_elem_of_cons. rewrite IH2. split; [by split|by intros [_ H]].
    + intros H. apply not_elem_of_cons in H as [_ H]. by apply IH3.
Qed.

Lemma elem_of_dropna_zip (l : list pyval) : ∀ (a i : nat) (s : string),
  (i, s) ∈ dropna (zip (seq a (length l)) l) ↔
  (a ≤ i)%nat ∧ l !! (i - a)%nat = Some (Str s).
Proof.
  induction l as [|v l IH]; intros a i s.
  - split; [by intros H%elem_of_nil|by intros [_ H]].
  - assert (Hcons : ∀ rows, dropna ((a, v) :: rows)
                    = match v with
                      | Str x => (a, x) :: dropna rows
                      | NaN => dropna rows
                      end).
    { intros rows. by destruct v. }
    change (zip (seq a (length (v :: l))) (v :: l))
      with ((a, v) :: zip (seq (S a) (length l)) l).
    rewrite Hcons. destruct v as [x|].
    + rewrite elem_of_cons, IH. split.
      * intros [[= -> ->]|[Ha Hl]].
        -- split; [lia|]. by rewrite Nat.sub_diag.
        -- split; [lia|]. replace (i - a)%nat with (S (i - S a)) by lia. exact Hl.
      * intros [Ha Hl]. destruct (decide (i = a)) as [->|Hne].
        -- left. rewrite Nat.sub_diag in Hl. simpl in Hl. by injection Hl as ->.
        -- right. split; [lia|].
           replace (i - a)%nat with (S (i - S a)) in Hl by lia. exact Hl.
    + rewrite IH. split.
      * intros [Ha Hl]. split; [lia|].
        replace (i - a)%nat with (S (i - S a)) by lia. exact Hl.
      * intros [Ha Hl]. destruct (decide (i = a)) as [->|Hne].
        -- rewrite Nat.sub_diag in Hl. discriminate Hl.
        -- split; [lia|].
           replace (i - a)%nat with (S (i - S a)) in Hl by lia. exact Hl.
Qed.

(** [dropna] keeps the label of every row it keeps: the series handed to
    the engines holds string [s] under label [i] exactly when [s] is the
    entry at position [i] of the list; a missing value leaves a gap in
    the labels. *)
Theorem dropna_keeps_labels (data : list pyval) (i : nat) (s : string) :
  (i, s) ∈ pd_series data ↔ data !! i = Some (Str s).
Proof.
  unfold pd_series, pd_raw_series, mk_Series. rewrite elem_of_dropna_zip.
  rewrite Nat.sub_0_r. split; [by intros [_ H]|]. intros H. split; [lia|done].
Qed.

(** ** The third cell for any list and any patterns *)

Lemma run_Ok_loop (pd cu : engine) (uninit : nat -> Z) (data : list pyval)
    (regexes : list string) (out : output) :
  run pd cu uninit data regexes = Ok out ->
  ∃ st, for_each pd cu uninit data 0 regexes (initial uninit data regexes) = Ok st ∧
        out = finalize st.
Proof.
  unfold run. intros Hrun.
  destruct (for_each pd cu uninit data 0 regexes (initial uninit data regexes))
    as [st|e]; [|discriminate]. simpl in Hrun. injection Hrun as <-. by exists st.
Qed.

Lemma run_example_completes (cu : engine) :
  ∃ out, run re_engine cu zeroed test_data_list candidate_regexes = Ok out.
Proof.
  destruct re_engine_candidate_0 as [f Hf].
  exact (run_completes re_engine cu zeroed test_data_list candidate_regexes
           _ _ f candidates_cons Hf).
Qed.

(** What a run that reaches its end has printed: for each pattern in
    turn, one line when the first engine raised, then the exception text
    and one line when the second engine raised.  Nothing else is printed. *)
Theorem printed_lines (pd cu : engine) (uninit : nat -> Z) (data : list pyval)
    (regexes : list string) (out : output) :
  run pd cu uninit data regexes = Ok out ->
  printed out = mjoin ((fun r => pd_log pd r ++ cu_log cu r) <$> regexes).
Proof.
  intros Hrun. destruct (run_Ok_loop _ _ _ _ _ _ Hrun) as (st & Hloop & ->).
  simpl. by rewrite (for_each_stdout pd cu uninit data regexes 0 _ st Hloop).
Qed.

Lemma printed_lines_witness :
  ∃ out, run re_engine raising zeroed test_data_list candidate_regexes = Ok out ∧
         printed out
         = mjoin ((fun r => pd_log re_engine r ++ cu_log raising r) <$> candidate_regexes).
Proof.
  destruct (run_example_completes raising) as [out Hrun]. exists out.
  split; [exact Hrun|].
  exact (printed_lines re_engine raising zeroed test_data_list candidate_regexes
           out Hrun).
Defined.

(** The columns of the table of a run that reaches its end: the display
    list under "email" and, for every pattern index, one column per
    engine.  The column names are pairwise distinct, so no column
    replaces another. *)
Theorem table_columns (pd cu : engine) (uninit : nat -> Z) (data : list pyval)
    (regexes : list string) (out : output) :
  run pd cu uninit data regexes = Ok out ->
  (∀ key, is_Some (results_df out !! key) ↔
          key = "email" ∨
          ∃ i, (i < length regexes)%nat ∧ (key = key_pd i ∨ key = key_cu i)) ∧
  (∀ i j, key_pd i = key_pd j -> i = j) ∧
  (∀ i j, key_cu i = key_cu j -> i = j) ∧
  (∀ i j, key_pd i ≠ key_cu j) ∧
  (∀ i, key_pd i ≠ "email" ∧ key_cu i ≠ "email").
Proof.
  intros Hrun. destruct (run_Ok_loop _ _ _ _ _ _ Hrun) as (st & Hloop & ->).
  split; [|split; [apply key_pd_inj|split; [apply key_cu_inj|split;
    [apply key_pd_cu|intros i; split; [apply key_pd_email|apply key_cu_email]]]]].
  intros key. simpl.
  rewrite (for_each_keys pd cu uninit data regexes 0 _ st Hloop key). simpl.
  rewrite lookup_singleton_is_Some. split; (intros [H|H]; [by left|by right]).
Qed.

Lemma table_columns_witness :
  ∃ out, run re_engine raising zeroed test_data_list candidate_regexes = Ok out ∧
         ∀ key, is_Some (results_df out !! key) ↔
                key = "email" ∨
                ∃ i, (i < length candidate_regexes)%nat ∧
                     (key = key_pd i ∨ key = key_cu i).
Proof.
  destruct (run_example_completes raising) as [out Hrun]. exists out.
  split; [exact Hrun|].
  exact (proj1 (table_columns re_engine raising zeroed test_data_list
                  candidate_regexes out Hrun)).
Defined.

(** In a run that reaches its end, a pattern on which the first engine
    raised has, as its first-engine column, the column of the pattern
    before it: the result of an earlier pattern is shown and compared
    under the later pattern's name. *)
Theorem left_over_column (pd cu : engine) (uninit : nat -> Z) (data : list pyval)
    (regexes : list string) (out : output) (i : nat) (r msg : string) :
  run pd cu uninit data regexes = Ok out ->
  regexes !! S i = Some r -> pd r = Raises msg ->
  results_df out !! key_pd (S i) = results_df out !! key_pd i ∧
  is_Some (results_df out !! key_pd i).
Proof.
  intros Hrun Hr Hpd. destruct (run_Ok_loop _ _ _ _ _ _ Hrun) as (st & Hloop & ->).
  exact (for_each_left_over pd cu uninit data i regexes 0 _ st r msg Hloop Hr Hpd).
Qed.

Lemma left_over_column_witness :
  ∃ out, run raising_on_second re_engine zeroed test_data_list candidate_regexes = Ok out ∧
         raising_on_second (candidate 1) = Raises "error" ∧
         results_df out !! key_pd 1 = results_df out !! key_pd 0.
Proof.
  assert (H1 : raising_on_second (candidate 1) = Raises "error").
  { unfold raising_on_second. by rewrite decide_True. }
  assert (H0 : ∃ f, raising_on_second (candidate 0) = Returns f).
  { unfold raising_on_second. rewrite decide_False by discriminate.
    apply re_engine_candidate_0. }
  destruct H0 as [f H0].
  destruct (run_completes raising_on_second re_engine zeroed test_data_list
              candidate_regexes _ _ f candidates_cons H0) as [out Hrun].
  exists out. split; [exact Hrun|]. split; [exact H1|].
  exact (proj1 (left_over_column raising_on_second re_engine zeroed test_data_list
                  candidate_regexes out 0 (candidate 1) "error" Hrun eq_refl H1)).
Defined.

(** The flag of a pattern on which the first engine returned, for any
    input list: it is true exactly when the second engine returned as
    well and the two compiled patterns give the same answer on every
    retained string.  When the second engine raised the flag is false. *)
Theorem flag_true_iff (pd cu : engine) (uninit : nat -> Z) (data : list pyval)
    (regexes : list string) (out : output) (i : nat) (r : string)
    (f : string -> bool) :
  run pd cu uninit data regexes = Ok out ->
  regexes !! i = Some r -> pd r = Returns f ->
  is_Some (do_pandas_and_cudf_match out !! i) ∧
  (do_pandas_and_cudf_match out !! i = Some true ↔
   ∃ g, cu r = Returns g ∧ Forall (fun s => f s = g s) (values (pd_series data))).
Proof.
  intros Hrun Hr Hpd.
  destruct (run_recorded pd cu uninit data regexes out i r Hrun Hr)
    as (p & _ & _ & Hflag & Hidx & Hfresh).
  rewrite Hflag. split; [by eexists|]. rewrite (Hfresh f Hpd).
  unfold cu_after. destruct (cu r) as [e|g]; simpl.
  - split; [discriminate|]. by intros (g & Hg & _).
  - rewrite !index_str_map, !values_str_map. unfold cu_series, cu_raw_series.
    change (dropna (mk_Series data)) with (pd_series data).
    rewrite bool_decide_eq_true_2 by reflexivity. simpl.
    split.
    + intros [= H%bool_decide_eq_true]. exists g. split; [done|].
      apply Forall_forall. intros s Hs.
      apply list_elem_of_lookup in Hs as [k Hk].
      apply (f_equal (fun l => l !! k)) in H.
      rewrite !list_lookup_fmap, Hk in H. simpl in H. by injection H.
    + intros (g' & [= <-] & Hall). f_equal. apply bool_decide_eq_true.
      apply list_fmap_ext. intros k s Hs.
      rewrite Forall_forall in Hall. apply Hall.
      apply list_elem_of_lookup. by exists k.
Qed.

Lemma flag_true_iff_witness :
  ∃ out f, run re_engine re_engine zeroed test_data_list candidate_regexes = Ok out ∧
           re_engine (candidate 0) = Returns f ∧
           do_pandas_and_cudf_match out !! 0%nat = Some true.
Proof.
  destruct re_engine_candidate_0 as [f Hf].
  destruct (run_completes re_engine re_engine zeroed test_data_list candidate_regexes
              _ _ f candidates_cons Hf) as [out Hrun].
  exists out, f.
  split; [exact Hrun|]. split; [exact Hf|].
  destruct (flag_true_iff re_engine re_engine zeroed test_data_list candidate_regexes
              out 0 (candidate 0) f Hrun eq_refl Hf) as [_ H].
  apply H. exists f. split; [exact Hf|].
  apply Forall_forall. intros s _. reflexivity.
Defined.

(** What is recorded for a pattern depends on the second engine through
    its outcome on that pattern alone, as long as the first engine
    returned on the first pattern and on this one: whether and where the
    second engine raises on other patterns changes neither the two
    columns nor the flag of this one. *)
Theorem second_engine_outcome_is_local (pd cu cu' : engine) (uninit : nat -> Z)
    (data : list pyval) (regexes : list string) (j : nat) (r0 r : string)
    (f0 f : string -> bool) :
  regexes !! 0%nat = Some r0 -> pd r0 = Returns f0 ->
  regexes !! j = Some r -> pd r = Returns f ->
  cu r = cu' r ->
  ∃ out out',
    run pd cu uninit data regexes = Ok out ∧
    run pd cu' uninit data regexes = Ok out' ∧
    results_df out !! key_pd j = results_df out' !! key_pd j ∧
    results_df out !! key_cu j = results_df out' !! key_cu j ∧
    do_pandas_and_cudf_match out !! j = do_pandas_and_cudf_match out' !! j.
Proof.
  intros H0 Hf0 Hj Hf Hcu.
  destruct regexes as [|r0' rest] eqn:E; [done|]. injection H0 as ->.
  rewrite <- E in *.
  destruct (run_completes pd cu uninit data regexes r0 rest f0 E Hf0) as [out Hrun].
  destruct (run_completes pd cu' uninit data regexes r0 rest f0 E Hf0) as [out' Hrun'].
  exists out, out'. split; [exact Hrun|]. split; [exact Hrun'|].
  destruct (run_recorded pd cu uninit data regexes out j r Hrun Hj)
    as (p & Hp & Hc & Hflag & _ & Hfresh).
  destruct (run_recorded pd cu' uninit data regexes out' j r Hrun' Hj)
    as (p' & Hp' & Hc' & Hflag' & _ & Hfresh').
  rewrite (Hfresh f Hf) in *. rewrite (Hfresh' f Hf) in *.
  rewrite Hp, Hp', Hc, Hc', Hflag, Hflag'. unfold cu_after. by rewrite Hcu.
Qed.

Lemma second_engine_outcome_is_local_witness :
  ∃ out out',
    run re_engine raising zeroed test_data_list candidate_regexes = Ok out ∧
    run re_engine raising_on_first zeroed test_data_list candidate_regexes = Ok out' ∧
    results_df out !! key_cu 0 = results_df out' !! key_cu 0 ∧
    do_pandas_and_cudf_match out !! 0%nat = do_pandas_and_cudf_match out' !! 0%nat.
Proof.
  destruct re_engine_candidate_0 as [f Hf].
  assert (Hcu : raising (candidate 0) = raising_on_first (candidate 0)).
  { unfold raising, raising_on_first. by rewrite decide_True. }
  destruct (second_engine_outcome_is_local re_engine raising raising_on_first zeroed
              test_data_list candidate_regexes 0 (candidate 0) (candidate 0) f f
              eq_refl Hf eq_refl Hf Hcu)
    as (out & out' & H1 & H2 & _ & H3 & H4).
  exists out, out'. exact (conj H1 (conj H2 (conj H3 H4))).
Defined.

(** For any input list and any patterns, taking the missing values out of
    the list beforehand changes the row labels and nothing else: both runs
    stop with the same exception, or both reach their end with the same
    flags, the same printed lines and the same entries in every column.
    Without missing values the labels are 0, 1, ... without gaps. *)
Theorem missing_values_only_move_labels (pd cu : engine) (uninit : nat -> Z)
    (data : list pyval) (regexes : list string) :
  index (pd_series (without_nan data)) = seq 0 (size (pd_series data)) ∧
  values (pd_series (without_nan data)) = values (pd_series data) ∧
  match run pd cu uninit data regexes,
        run pd cu uninit (without_nan data) regexes with
  | Ok with_nan, Ok without =>
      do_pandas_and_cudf_match without = do_pandas_and_cudf_match with_nan ∧
      printed without = printed with_nan ∧
      ∀ key, column_cells <$> (results_df without !! key)
             = column_cells <$> (results_df with_nan !! key)
  | Raise e1, Raise e2 => e1 = e2
  | _, _ => False
  end.
Proof.
  rewrite pd_series_without_nan, index_reset_index, values_reset_index.
  split; [reflexivity|]. split; [reflexivity|].
  rewrite run_without_nan.
  destruct (run pd cu uninit data regexes) as [out|e]; simpl; [|reflexivity].
  repeat split. intros key. rewrite lookup_fmap.
  destruct (results_df out !! key) as [col|]; simpl; [|done].
  by rewrite column_cells_reset.
Qed.

(** For any input list, a pattern on which the second engine raised has,
    in a run that reaches its end, a second-engine column of as many -1 as
    the series has rows, and a false flag; this holds as well when the
    first engine raised on that pattern and an older column was compared. *)
Theorem sentinel_column_any_input (pd cu : engine) (uninit : nat -> Z)
    (data : list pyval) (regexes : list string) (out : output) (i : nat)
    (r msg : string) :
  run pd cu uninit data regexes = Ok out ->
  regexes !! i = Some r -> cu r = Raises msg ->
  results_df out !! key_cu i
    = Some (CArray (AFloat (replicate (size (pd_series data)) err_match_value))) ∧
  do_pandas_and_cudf_match out !! i = Some false.
Proof.
  intros Hrun Hr Hcu.
  destruct (run_recorded pd cu uninit data regexes out i r Hrun Hr)
    as (p & _ & Hc & Hflag & Hidx & _).
  unfold cu_after in Hc, Hflag. rewrite Hcu in Hc, Hflag.
  unfold to_numpy in Hc. rewrite values_mk_Series, (index_size _ _ Hidx) in Hc.
  by split.
Qed.

Lemma sentinel_column_any_input_witness :
  ∃ out, run re_engine raising zeroed [NaN; Str "a@b.c"] candidate_regexes = Ok out ∧
         results_df out !! key_cu 5 = Some (CArray (AFloat [err_match_value])) ∧
         do_pandas_and_cudf_match out !! 5%nat = Some false.
Proof.
  destruct re_engine_candidate_0 as [f Hf].
  destruct (run_completes re_engine raising zeroed [NaN; Str "a@b.c"]
              candidate_regexes _ _ f candidates_cons Hf) as [out Hrun].
  exists out. split; [exact Hrun|].
  exact (sentinel_column_any_input re_engine raising zeroed [NaN; Str "a@b.c"]
           candidate_regexes out 5 (candidate 5) "error" Hrun eq_refl eq_refl).
Defined.

(** For any input list, every pattern of a run that reaches its end has
    a first-engine column that carries exactly the labels of the series,
    gaps included, and a second-engine column with one entry per row of
    the series. *)
Theorem result_columns_follow_series (pd cu : engine) (uninit : nat -> Z)
    (data : list pyval) (regexes : list string) (out : output) (i : nat) :
  run pd cu uninit data regexes = Ok out -> (i < length regexes)%nat ->
  ∃ (p : Series bool) (a : ndarray),
    results_df out !! key_pd i = Some (CSeries p) ∧
    index p = index (pd_series data) ∧
    results_df out !! key_cu i = Some (CArray a) ∧
    length (array_cells a) = size (pd_series data).
Proof.
  intros Hrun Hi. destruct (lookup_lt_is_Some_2 regexes i Hi) as [r Hr].
  destruct (run_recorded pd cu uninit data regexes out i r Hrun Hr)
    as (p & Hp & Hc & _ & Hidx & _).
  exists p, (to_numpy (cu_after cu data r p)).
  split; [exact Hp|]. split; [exact Hidx|]. split; [exact Hc|].
  rewrite (length_cu_after_cells cu data r p Hidx). by apply index_size.
Qed.

Lemma result_columns_follow_series_witness :
  ∃ out (p : Series bool),
    run re_engine raising zeroed [NaN; Str "a@b.c"] candidate_regexes = Ok out ∧
    results_df out !! key_pd 2 = Some (CSeries p) ∧ index p = [1%nat].
Proof.
  destruct re_engine_candidate_0 as [f Hf].
  destruct (run_completes re_engine raising zeroed [NaN; Str "a@b.c"]
              candidate_regexes _ _ f candidates_cons Hf) as [out Hrun].
  destruct (result_columns_follow_series re_engine raising zeroed [NaN; Str "a@b.c"]
              candidate_regexes out 2 Hrun ltac:(simpl; lia))
    as (p & a & Hp & Hidx & _).
  exists out, p. exact (conj Hrun (conj Hp Hidx)).
Defined.

(** ** The six patterns on any string *)

Lemma repeat_then_mono a b (k1 k2 : list ascii -> bool) s :
  atom_le a b -> (∀ t, k1 t = true -> k2 t = true) ->
  Re.repeat_then a k1 s = true -> Re.repeat_then b k2 s = true.
Proof.
  intros Hab Hk. induction s as [|c s IH]; simpl; [apply Hk|].
  intros [[Ha Hr]%andb_true_iff|H]%orb_true_iff; apply orb_true_iff.
  - left. apply andb_true_iff. split; [by apply Hab|by apply IH].
  - right. by apply Hk.
Qed.

(** Widening the classes of a pattern keeps every match. *)
Lemma sre_match_mono r1 r2 :
  Forall2 item_le r1 r2 ->
  ∀ bos s, Re.sre_match r1 bos s = true -> Re.sre_match r2 bos s = true.
Proof.
  induction 1 as [|x y r1 r2 Hxy _ IH]; intros bos s; [done|].
  destruct Hxy as [| |a b Hab|a b Hab]; simpl.
  - intros [-> H]%andb_true_iff. simpl. by apply IH.
  - intros [-> H]%andb_true_iff. simpl. by apply IH.
  - destruct s as [|c s]; [done|].
    intros [Ha H]%andb_true_iff. apply andb_true_iff. split; [by apply Hab|by apply IH].
  - destruct s as [|c s]; [done|].
    intros [Ha H]%andb_true_iff. apply andb_true_iff. split; [by apply Hab|].
    revert H. apply repeat_then_mono; [exact Hab|]. intros t. apply IH.
Qed.

Lemma atom_le_refl a : atom_le a a.
Proof. by intros c. Qed.

(** The local-part class with [+-.] read as a range accepts what the one
    with the three literals accepts, and the comma. *)
Lemma local_class_range (c : ascii) :
  Re.set_accepts [Re.RANGE "a" "z"; Re.RANGE "A" "Z"; Re.RANGE "0" "9";
                  Re.LITERAL "_"; Re.RANGE "+" "."] c
  = Re.set_accepts [Re.RANGE "a" "z"; Re.RANGE "A" "Z"; Re.RANGE "0" "9";
                    Re.LITERAL "_"; Re.LITERAL "."; Re.LITERAL "+"; Re.LITERAL "-"] c
    || Ascii.eqb c ",".
Proof.
  destruct c as [[] [] [] [] [] [] [] []]; reflexivity.
Qed.

Lemma candidate_0_le_2 :
  ∃ r0 r2, Re.compile (candidate 0) = Re.Parsed r0 ∧
           Re.compile (candidate 2) = Re.Parsed r2 ∧
           Forall2 item_le r0 r2.
Proof.
  eexists _, _. split; [vm_compute; reflexivity|]. split; [vm_compute; reflexivity|].
  repeat constructor; try apply atom_le_refl.
  - intros c H. cbn [Re.atom_accepts xorb] in *.
    rewrite local_class_range, H. reflexivity.
  - intros c. unfold Re.atom_accepts, Re.set_accepts. simpl.
    destruct (Re.in_range "a" "z" c), (Re.in_range "A" "Z" c),
      (Re.in_range "0" "9" c), (Ascii.eqb c "-"), (Ascii.eqb c "."); done.
Qed.

(** The agreement between the hyphen spellings holds on every string, not
    only on the twelve of the list: candidates 0 and 1 give the same
    result on any string, and so do candidates 2, 3, 4 and 5. *)
Theorem hyphen_spellings_agree_on_all_strings (s : string) :
  Re.re_match (candidate 0) s = Re.re_match (candidate 1) s ∧
  Re.re_match (candidate 2) s = Re.re_match (candidate 3) s ∧
  Re.re_match (candidate 2) s = Re.re_match (candidate 4) s ∧
  Re.re_match (candidate 2) s = Re.re_match (candidate 5) s.
Proof.
  split; [apply re_match_candidate_0_1|].
  split; [|split].
  - destruct (re_match_candidates_2_to_5 2 3 s ltac:(lia) ltac:(lia)) as (b & -> & ->).
    reflexivity.
  - destruct (re_match_candidates_2_to_5 2 4 s ltac:(lia) ltac:(lia)) as (b & -> & ->).
    reflexivity.
  - destruct (re_match_candidates_2_to_5 2 5 s ltac:(lia) ltac:(lia)) as (b & -> & ->).
    reflexivity.
Qed.

(** Moving the hyphen between [+] and [.] turns three literals into the
    range from [+] to [.], which also holds the comma.  So candidate 2
    matches every string that candidate 0 matches, and more: a local part
    with a comma is matched by candidate 2 and not by candidate 0. *)
Theorem hyphen_between_literals_widens (s : string) :
  Re.re_match (candidate 0) s = Some true ->
  Re.re_match (candidate 2) s = Some true ∧
  Re.re_match (candidate 2) "hi,there@whatsup.yo" = Some true ∧
  Re.re_match (candidate 0) "hi,there@whatsup.yo" = Some false.
Proof.
  intros H. split; [|split; vm_compute; reflexivity].
  destruct candidate_0_le_2 as (r0 & r2 & H0 & H2 & Hle).
  unfold Re.re_match, Re.matches in *. rewrite H0 in H. rewrite H2.
  injection H as H. f_equal. by apply (sre_match_mono r0 r2 Hle).
Qed.

Lemma hyphen_between_literals_widens_witness :
  Re.re_match (candidate 0) "hi-there@whats-up.yo" = Some true ∧
  Re.re_match (candidate 2) "hi-there@whats-up.yo" = Some true.
Proof.
  assert (H : Re.re_match (candidate 0) "hi-there@whats-up.yo" = Some true).
  { vm_compute. reflexivity. }
  split; [exact H|].
  exact (proj1 (hyphen_between_literals_widens "hi-there@whats-up.yo" H)).
Defined.

Lemma display_list_and_series_witness :
  Str "nan" ∈ [Str "nan"; NaN; Str "a@b.c"] ∧
  length (test_data_to_show [Str "nan"; NaN; Str "a@b.c"])
  ≠ size (pd_series [Str "nan"; NaN; Str "a@b.c"]).
Proof.
  assert (H : Str "nan" ∈ [Str "nan"; NaN; Str "a@b.c"]) by apply list_elem_of_here.
  split; [exact H|]. intros E.
  exact (proj1 (proj1 (proj2 (display_list_and_series
                                [Str "nan"; NaN; Str "a@b.c"]))) E H).
Defined.


(* ===================================================================== *)
(** * Part 10: the flag when the first engine raised                      *)
(* ===================================================================== *)

Lemma re_engine_candidate_1_as_0 : re_engine (candidate 1) = re_engine (candidate 0).
Proof. unfold re_engine. by rewrite compile_candidate_0_1. Qed.

(** C5 at a failing input.  Let the first engine raise on the second
    candidate only, and let the second engine evaluate every candidate.
    The run reaches its end.  For the second candidate the first engine
    has no result; the column recorded under its name is the one of the
    first candidate, the second engine's column for the second candidate
    is compared with it, and the flag of the second candidate is true. *)
Lemma C5_flag_true_without_first_engine_result :
  raising_on_second (candidate 1) = Raises "error" ∧
  ∃ out p f,
    run raising_on_second re_engine zeroed test_data_list candidate_regexes = Ok out ∧
    raising_on_second (candidate 0) = Returns f ∧
    p = prod_map id f <$> pd_series test_data_list ∧
    results_df out !! key_pd 0 = Some (CSeries p) ∧
    results_df out !! key_pd 1 = Some (CSeries p) ∧
    do_pandas_and_cudf_match out !! 1%nat = Some true.
Proof.
  assert (H1 : raising_on_second (candidate 1) = Raises "error").
  { unfold raising_on_second. by rewrite decide_True. }
  split; [exact H1|].
  destruct re_engine_candidate_0 as [f Hf].
  assert (H0 : raising_on_second (candidate 0) = Returns f).
  { unfold raising_on_second. by rewrite decide_False by discriminate. }
  destruct (run_completes raising_on_second re_engine zeroed test_data_list
              candidate_regexes _ _ f candidates_cons H0) as [out Hrun].
  destruct (run_recorded raising_on_second re_engine zeroed test_data_list
              candidate_regexes out 0 (candidate 0) Hrun eq_refl)
    as (p0 & Hp0 & _ & _ & _ & Hfresh0).
  destruct (run_recorded raising_on_second re_engine zeroed test_data_list
              candidate_regexes out 1 (candidate 1) Hrun eq_refl)
    as (p1 & Hp1 & _ & Hflag1 & _ & _).
  destruct (run_Ok_loop _ _ _ _ _ _ Hrun) as (st & Hloop & Hout).
  destruct (for_each_left_over raising_on_second re_engine zeroed test_data_list
              0 candidate_regexes 0 _ st (candidate 1) "error" Hloop eq_refl H1)
    as [Hleft _].
  simpl in Hleft.
  assert (Hsame : p1 = p0).
  { rewrite Hout in Hp0, Hp1. simpl in Hp0, Hp1.
    rewrite Hleft, Hp0 in Hp1. by injection Hp1. }
  subst p1. rewrite (Hfresh0 f H0) in *.
  exists out, (prod_map id f <$> pd_series test_data_list), f.
  split; [exact Hrun|]. split; [exact H0|]. split; [reflexivity|].
  split; [exact Hp0|]. split; [exact Hp1|].
  rewrite Hflag1. f_equal. unfold cu_after.
  rewrite re_engine_candidate_1_as_0, Hf.
  unfold equals. by rewrite !bool_decide_eq_true_2.
Qed.
